(** * Calc2_formula_lib: rule-based symbolic differentiation

    A shallow embedding of [_core.py], [derivative_rule.py] and
    [calculator.py].  The computer-algebra collaborator (SymPy) is not part
    of the repository: its expression trees are modelled as an inductive
    type, and every algorithm the library calls on it (parsing, [expand],
    [simplify], [diff], ...) is a field of the record [Engine], over which
    the matchers and the dispatcher are parameterised. *)

From Stdlib Require Import ZArith List String Ascii Bool PeanoNat.
Import ListNotations.
Open Scope string_scope.

Set Implicit Arguments.

(* ===================================================================== *)
(** ** Expression trees *)
(* ===================================================================== *)

(** SymPy expressions, seen through the introspection the library uses:
    [isinstance(e, sp.Mul)], [isinstance(e, sp.Pow)], [e.base], [e.exp],
    [e.func], [e.args] and structural [==].  [exp], [sin] and [cos] take
    exactly one argument; [log] takes one or two. *)
Local Unset Elimination Schemes.

Inductive Expr : Type :=
| Integer (n : Z)
| Rational (p : Z) (q : positive)
| Symbol (name : string)
| Add (args : list Expr)
| Mul (args : list Expr)
| Pow (b e : Expr)
| exp (arg : Expr)
| log (arg : Expr) (base : option Expr)
| sin (arg : Expr)
| cos (arg : Expr)
| AppliedFunction (name : string) (args : list Expr).

Local Set Elimination Schemes.

(** Induction over expression trees, with the children of an n-ary node
    covered by [Forall]. *)
Section ExprInduction.
Variable P : Expr -> Prop.
Hypothesis P_Integer : forall n, P (Integer n).
Hypothesis P_Rational : forall p q, P (Rational p q).
Hypothesis P_Symbol : forall s, P (Symbol s).
Hypothesis P_Add : forall l, Forall P l -> P (Add l).
Hypothesis P_Mul : forall l, Forall P l -> P (Mul l).
Hypothesis P_Pow : forall b e, P b -> P e -> P (Pow b e).
Hypothesis P_exp : forall g, P g -> P (exp g).
Hypothesis P_log1 : forall g, P g -> P (log g None).
Hypothesis P_log2 : forall g b, P g -> P b -> P (log g (Some b)).
Hypothesis P_sin : forall g, P g -> P (sin g).
Hypothesis P_cos : forall g, P g -> P (cos g).
Hypothesis P_Applied : forall f l, Forall P l -> P (AppliedFunction f l).

Fixpoint Expr_ind (e : Expr) : P e :=
  let children :=
    fix children (l : list Expr) : Forall P l :=
      match l with
      | [] => Forall_nil P
      | a :: l' => Forall_cons a (Expr_ind a) (children l')
      end in
  match e with
  | Integer n => P_Integer n
  | Rational p q => P_Rational p q
  | Symbol s => P_Symbol s
  | Add l => P_Add (children l)
  | Mul l => P_Mul (children l)
  | Pow b n => P_Pow (Expr_ind b) (Expr_ind n)
  | exp g => P_exp (Expr_ind g)
  | log g None => P_log1 (Expr_ind g)
  | log g (Some b) => P_log2 (Expr_ind g) (Expr_ind b)
  | sin g => P_sin (Expr_ind g)
  | cos g => P_cos (Expr_ind g)
  | AppliedFunction f l => P_Applied f (children l)
  end.
End ExprInduction.

Section ListEqb.
Variable A : Type.
Variable eqb : A -> A -> bool.

Fixpoint list_eqb (l1 l2 : list A) : bool :=
  match l1, l2 with
  | [], [] => true
  | a :: l1', b :: l2' => eqb a b && list_eqb l1' l2'
  | _, _ => false
  end.

Definition option_eqb (o1 o2 : option A) : bool :=
  match o1, o2 with
  | None, None => true
  | Some a, Some b => eqb a b
  | _, _ => false
  end.
End ListEqb.

(** Structural equality, SymPy's [==] on expressions. *)
Fixpoint expr_eqb (a b : Expr) {struct a} : bool :=
  match a, b with
  | Integer m, Integer n => Z.eqb m n
  | Rational p q, Rational p' q' => Z.eqb p p' && Pos.eqb q q'
  | Symbol s, Symbol t => String.eqb s t
  | Add l1, Add l2 => list_eqb expr_eqb l1 l2
  | Mul l1, Mul l2 => list_eqb expr_eqb l1 l2
  | Pow b1 e1, Pow b2 e2 => expr_eqb b1 b2 && expr_eqb e1 e2
  | exp g1, exp g2 => expr_eqb g1 g2
  | log g1 o1, log g2 o2 =>
      expr_eqb g1 g2 && option_eqb expr_eqb o1 o2
  | sin g1, sin g2 => expr_eqb g1 g2
  | cos g1, cos g2 => expr_eqb g1 g2
  | AppliedFunction f1 l1, AppliedFunction f2 l2 =>
      String.eqb f1 f2 && list_eqb expr_eqb l1 l2
  | _, _ => false
  end.

(** The class of a node, [e.func]. *)
Inductive Func : Type :=
| FInteger | FRational | FSymbol | FAdd | FMul | FPow
| Fexp | Flog | Fsin | Fcos
| FApplied (name : string).

Definition func (e : Expr) : Func :=
  match e with
  | Integer _ => FInteger
  | Rational _ _ => FRational
  | Symbol _ => FSymbol
  | Add _ => FAdd
  | Mul _ => FMul
  | Pow _ _ => FPow
  | exp _ => Fexp
  | log _ _ => Flog
  | sin _ => Fsin
  | cos _ => Fcos
  | AppliedFunction f _ => FApplied f
  end.

Definition func_eqb (f g : Func) : bool :=
  match f, g with
  | FInteger, FInteger | FRational, FRational | FSymbol, FSymbol
  | FAdd, FAdd | FMul, FMul | FPow, FPow
  | Fexp, Fexp | Flog, Flog | Fsin, Fsin | Fcos, Fcos => true
  | FApplied s, FApplied t => String.eqb s t
  | _, _ => false
  end.

(** The children of a node, [e.args]. *)
Definition args (e : Expr) : list Expr :=
  match e with
  | Integer _ | Rational _ _ | Symbol _ => []
  | Add l | Mul l => l
  | Pow b n => [b; n]
  | exp g | sin g | cos g => [g]
  | log g None => [g]
  | log g (Some b) => [g; b]
  | AppliedFunction _ l => l
  end.

(* ===================================================================== *)
(** ** Exceptions and results *)
(* ===================================================================== *)

Inductive Exception : Type :=
| ValueError (msg : string)
| KeyError (key : string)
| IndexError
| AttributeError.

Inductive Result (A : Type) : Type :=
| Ok (a : A)
| Raise (exn : Exception).
Arguments Ok {A} a.
Arguments Raise {A} exn.

Definition bind {A B} (m : Result A) (k : A -> Result B) : Result B :=
  match m with
  | Ok a => k a
  | Raise exn => Raise exn
  end.

Notation "x <- m ;; k" := (bind m (fun x => k))
  (at level 61, m at next level, right associativity).

(* ===================================================================== *)
(** ** [_core.py] *)
(* ===================================================================== *)

Record RuleResult : Type := mkRuleResult {
  input_expr : Expr;
  output_expr : Expr;
  applied : bool;
  rule_name : string;
  message : string;
  steps : list string
}.

(** [Union[str, sp.Expr]] *)
Inductive ExprArg : Type :=
| Text (s : string)
| Tree (e : Expr).

(** [Union[str, sp.Symbol]]; a symbol is identified by its name. *)
Inductive VarArg : Type :=
| VarStr (s : string)
| VarSymbol (name : string).

(** The collaborator, on expressions.  [parse] is SymPy's own [parse_expr]
    with the transformations the library passes, for the texts it reads as
    an expression ([Some]) or rejects by raising ([None]); a text whose
    value is not an expression, such as a tuple, is outside this interface
    and is the subject of the section on non-expressions below.  [mul],
    [add], [sub], [truediv], [pow] and [neg] are the operators [*], [+],
    [-], [/], [**] and unary [-] on expressions, and [call_exp] ... are the
    calls [sp.exp(g)] ...; all of these evaluate, and are not the bare
    constructors.  [str] is the printer used by the f-string of the
    constant-multiple rule, [repr] Python's [repr] on [str] values. *)
Record Engine : Type := mkEngine {
  parse : string -> list (string * Expr) -> option Expr;
  expand : Expr -> Expr;
  simplify : Expr -> Expr;
  factor_terms : Expr -> Expr;
  diff : Expr -> string -> Expr;
  as_independent : Expr -> string -> Expr * Expr;
  is_polynomial : Expr -> string -> bool;
  has : Expr -> string -> bool;
  mul : Expr -> Expr -> Expr;
  add : Expr -> Expr -> Expr;
  sub : Expr -> Expr -> Expr;
  truediv : Expr -> Expr -> Expr;
  pow : Expr -> Expr -> Expr;
  neg : Expr -> Expr;
  call_exp : Expr -> Expr;
  call_log : Expr -> Expr;
  call_sin : Expr -> Expr;
  call_cos : Expr -> Expr;
  str : Expr -> string;
  repr : string -> string
}.

Definition get_symbol (var : VarArg) : string :=
  match var with
  | VarSymbol x => x
  | VarStr s => s
  end.

Definition invalid_expression_message (quoted : string) : string :=
  "Invalid expression: " ++ quoted ++
  ". Please provide a valid math expression in x.".

Definition not_applicable (input : Expr) (name msg : string) : RuleResult :=
  {| input_expr := input;
     output_expr := input;
     applied := false;
     rule_name := name;
     message := msg;
     steps := [] |}.

Section Library.
Variable sp : Engine.

(** [local_dict or {}] *)
Definition or_empty (local_dict : option (list (string * Expr)))
  : list (string * Expr) :=
  match local_dict with
  | Some ((_ :: _) as d) => d
  | _ => []
  end.

Definition parse_expr (expr : ExprArg)
    (local_dict : option (list (string * Expr))) : Result Expr :=
  match expr with
  | Tree e => Ok e
  | Text s =>
      match parse sp s (or_empty local_dict) with
      | Some e => Ok e
      | None => Raise (ValueError (invalid_expression_message (repr sp s)))
      end
  end.

(** [{str(x): x}] *)
Definition bind_symbol (x : string) : option (list (string * Expr)) :=
  Some [(x, Symbol x)].

(* =================================================================== *)
(** ** [derivative_rule.py] *)
(* =================================================================== *)

Definition apply_power_rule_derivative (expr : ExprArg) (var : VarArg)
  : Result RuleResult :=
  let x := get_symbol var in
  let rule_name := "power_rule" in
  f <- parse_expr expr (bind_symbol x) ;;
  let f := expand sp f in
  if negb (is_polynomial sp f x) then
    Ok (not_applicable f rule_name
          "Not applicable: expression is not a polynomial in x (power-rule mode).")
  else
    let out := simplify sp (diff sp f x) in
    Ok {| input_expr := f;
          output_expr := out;
          applied := true;
          rule_name := rule_name;
          message := "Applied power rule term-by-term (polynomial).";
          steps := ["Recognize polynomial in x."; "Differentiate each term."] |}.

Definition apply_constant_multiple_derivative (expr : ExprArg) (var : VarArg)
  : Result RuleResult :=
  let x := get_symbol var in
  let rule_name := "constant_multiple_rule" in
  f <- parse_expr expr (bind_symbol x) ;;
  let f_s := factor_terms sp f in
  let '(c, rest) := as_independent sp f_s x in
  if expr_eqb c (Integer 1) then
    Ok (not_applicable f_s rule_name
          "Not applicable: no constant multiple factor found.")
  else
    let out := simplify sp (mul sp c (diff sp rest x)) in
    Ok {| input_expr := f_s;
          output_expr := out;
          applied := true;
          rule_name := rule_name;
          message := "Applied constant multiple rule for derivatives.";
          steps := ["Factor out constant c = " ++ str sp c ++ ".";
                    "Differentiate the remaining part."] |}.

Definition apply_product_rule (expr : ExprArg) (var : VarArg)
  : Result RuleResult :=
  let x := get_symbol var in
  let rule_name := "product_rule" in
  e <- parse_expr expr (bind_symbol x) ;;
  let e := simplify sp e in
  match e with
  | Mul _ =>
      let '(c, rest) := as_independent sp e x in
      let factors := match rest with Mul l => l | _ => [rest] end in
      let nonconst := filter (fun f => has sp f x) factors in
      if negb (List.length nonconst =? 2)%nat then
        Ok (not_applicable e rule_name
              "Not applicable: product rule requires exactly two x-dependent factors (simple mode).")
      else
        match nonconst with
        | [f1; f2] =>
            let out :=
              simplify sp
                (mul sp c (add sp (mul sp f1 (diff sp f2 x))
                                  (mul sp (diff sp f1 x) f2))) in
            Ok {| input_expr := e;
                  output_expr := out;
                  applied := true;
                  rule_name := rule_name;
                  message := "Applied product rule.";
                  steps := ["Identify f(x) and g(x).";
                            "Compute f g' + f' g."] |}
        | _ => Raise (ValueError "wrong number of values to unpack")
        end
  | _ =>
      Ok (not_applicable e rule_name
            "Not applicable: expression is not a product.")
  end.

(** [e.args[0]] *)
Definition arg0 (e : Expr) : Result Expr :=
  match args e with
  | g :: _ => Ok g
  | [] => Raise IndexError
  end.

(** [e.args[0].has(x)] *)
Definition arg0_has (e : Expr) (x : string) : Result bool :=
  g <- arg0 e ;; Ok (has sp g x).

Definition apply_chain_rule (expr : ExprArg) (var : VarArg)
  : Result RuleResult :=
  let x := get_symbol var in
  let rule_name := "chain_rule" in
  e <- parse_expr expr (bind_symbol x) ;;
  let e := simplify sp e in
  let after_pow : Result RuleResult :=
    is_exp <- (if func_eqb (func e) Fexp && negb (List.length (args e) =? 0)%nat
               then arg0_has e x else Ok false) ;;
    if is_exp then
      g <- arg0 e ;;
      let out := simplify sp (mul sp (call_exp sp g) (diff sp g x)) in
      Ok (mkRuleResult e out true rule_name
            "Applied chain rule for exponential."
            ["Match pattern exp(g(x))."; "Derivative: exp(g(x))*g'(x)."])
    else
    is_log <- (if func_eqb (func e) Flog && (List.length (args e) =? 1)%nat
               then arg0_has e x else Ok false) ;;
    if is_log then
      g <- arg0 e ;;
      let out := simplify sp (truediv sp (diff sp g x) g) in
      Ok (mkRuleResult e out true rule_name
            "Applied chain rule for natural log."
            ["Match pattern ln(g(x))."; "Derivative: g'(x)/g(x)."])
    else
    is_sin <- (if func_eqb (func e) Fsin then arg0_has e x else Ok false) ;;
    if is_sin then
      g <- arg0 e ;;
      let out := simplify sp (mul sp (call_cos sp g) (diff sp g x)) in
      Ok (mkRuleResult e out true rule_name
            "Applied chain rule for sine."
            ["Match pattern sin(g(x))."; "Derivative: cos(g(x))*g'(x)."])
    else
    is_cos <- (if func_eqb (func e) Fcos then arg0_has e x else Ok false) ;;
    if is_cos then
      g <- arg0 e ;;
      let out := simplify sp (mul sp (neg sp (call_sin sp g)) (diff sp g x)) in
      Ok (mkRuleResult e out true rule_name
            "Applied chain rule for cosine."
            ["Match pattern cos(g(x))."; "Derivative: -sin(g(x))*g'(x)."])
    else
      Ok (not_applicable e rule_name
            "Not applicable: expression does not match supported chain-rule patterns (simple mode).")
  in
  match e with
  | Pow g n =>
      if has sp g x && negb (has sp n x) && negb (expr_eqb n (Integer 1)) then
        let out :=
          simplify sp
            (mul sp (mul sp n (pow sp g (sub sp n (Integer 1)))) (diff sp g x)) in
        Ok (mkRuleResult e out true rule_name
              "Applied chain rule for power of inner function."
              ["Match pattern (g(x))^n."; "Derivative: n*(g(x))^(n-1)*g'(x)."])
      else after_pow
  | _ => after_pow
  end.

Definition apply_exponential_derivative_rule (expr : ExprArg) (var : VarArg)
  : Result RuleResult :=
  let x := get_symbol var in
  let rule_name := "exponential_rule" in
  e <- parse_expr expr (bind_symbol x) ;;
  match e with
  | Pow a expo =>
      if negb (expr_eqb expo (Symbol x)) then
        Ok (not_applicable e rule_name "Not applicable: exponent is not x.")
      else if has sp a x then
        Ok (not_applicable e rule_name "Not applicable: base a is not constant.")
      else
        let out := simplify sp (mul sp e (call_log sp a)) in
        Ok {| input_expr := e;
              output_expr := out;
              applied := true;
              rule_name := rule_name;
              message := "Applied exponential derivative rule.";
              steps := ["Match pattern a^x with constant a.";
                        "Derivative: a^x ln(a)."] |}
  | _ => Ok (not_applicable e rule_name "Not applicable: expression is not a^x.")
  end.

(* =================================================================== *)
(** ** [calculator.py] *)
(* =================================================================== *)

Definition Matcher : Type := ExprArg -> VarArg -> Result RuleResult.

(** The dict [rule_map], in insertion order. *)
Definition rule_map : list (string * Matcher) :=
  [ ("power_rule", apply_power_rule_derivative);
    ("constant_multiple_rule", apply_constant_multiple_derivative);
    ("product_rule", apply_product_rule);
    ("chain_rule", apply_chain_rule);
    ("exponential_rule", apply_exponential_derivative_rule) ].

Fixpoint lookup (key : string) (m : list (string * Matcher)) : option Matcher :=
  match m with
  | [] => None
  | (k, v) :: m' => if String.eqb key k then Some v else lookup key m'
  end.

(** [rule_map[key]] *)
Definition getitem (key : string) : Result Matcher :=
  match lookup key rule_map with
  | Some f => Ok f
  | None => Raise (KeyError key)
  end.

Definition keys (m : list (string * Matcher)) : list string := map fst m.

(** [", ".join(l)] *)
Fixpoint join (sep : string) (l : list string) : string :=
  match l with
  | [] => ""
  | [s] => s
  | s :: l' => s ++ sep ++ join sep l'
  end.

Definition ordered_rules : list string :=
  [ "power_rule"; "constant_multiple_rule"; "product_rule";
    "chain_rule"; "exponential_rule" ].

(** The [for] loop of auto mode: [Ok (Some r)] is a [return] of [r] from
    inside or after the loop; [last_result] starts as [None]. *)
Fixpoint auto_loop (rules : list string) (last_result : option RuleResult)
    (expr : ExprArg) (var : VarArg) : Result (option RuleResult) :=
  match rules with
  | [] => Ok last_result
  | rule_name :: rules' =>
      f <- getitem rule_name ;;
      result <- f expr var ;;
      if applied result then Ok (Some result)
      else auto_loop rules' (Some result) expr var
  end.

Definition unknown_rule_message (rule : string) : string :=
  "Unknown rule " ++ repr sp rule ++ ". Allowed values: " ++
  join ", " ("auto" :: keys rule_map) ++ ".".

Definition apply_derivative_rule (expr : ExprArg) (var : VarArg)
    (rule : string) : Result (option RuleResult) :=
  if String.eqb rule "auto" then
    auto_loop ordered_rules None expr var
  else
    match lookup rule rule_map with
    | None => Raise (ValueError (unknown_rule_message rule))
    | Some f => r <- f expr var ;; Ok (Some r)
    end.

Definition differentiate_with_rules (expr : ExprArg) (var : VarArg)
  : Result RuleResult :=
  result <- apply_derivative_rule expr var "auto" ;;
  match result with
  | None => Raise AttributeError
  | Some result =>
      if applied result then Ok result
      else
        let x := get_symbol var in
        f <- parse_expr expr (bind_symbol x) ;;
        let out := simplify sp (diff sp f x) in
        Ok {| input_expr := f;
              output_expr := out;
              applied := true;
              rule_name := "symbolic_fallback";
              message := "No simple rule matched; used symbolic differentiation fallback.";
              steps := ["Apply generic symbolic derivative d/dx."] |}
  end.

End Library.

(* ===================================================================== *)
(** ** A small executable engine *)
(* ===================================================================== *)

(** An instance of [Engine] that can be run: a tokenizer and a
    recursive-descent parser for integers, names, [+ - * / ^ **],
    parentheses, implicit multiplication and the calls [sin], [cos], [exp],
    [log], [ln]; evaluating operators that fold integer constants and
    flatten sums and products; structural [has], [diff] and
    [is_polynomial].  It stands for the collaborator when the library is
    run on the inputs of the test suite. *)
Module Toy.

(** *** Evaluating operators *)

Definition scale (k : Z) (b : Expr) : Expr :=
  if Z.eqb k 0 then Integer 0
  else if Z.eqb k 1 then b
  else match b with
       | Integer n => Integer (k * n)
       | Mul (Integer n :: l) => Mul (Integer (k * n) :: l)
       | Mul l => Mul (Integer k :: l)
       | _ => Mul [Integer k; b]
       end.

Definition mul (a b : Expr) : Expr :=
  match a, b with
  | Integer k, _ => scale k b
  | _, Integer k => scale k a
  | Mul (Integer k :: l1), Mul l2 => scale k (Mul (l1 ++ l2))
  | Mul l1, Mul l2 => Mul (l1 ++ l2)
  | Mul l1, _ => Mul (l1 ++ [b])
  | _, Mul (Integer k :: l2) => Mul (Integer k :: a :: l2)
  | _, Mul l2 => Mul (a :: l2)
  | _, _ => Mul [a; b]
  end.

Definition add (a b : Expr) : Expr :=
  match a, b with
  | Integer m, Integer n => Integer (m + n)
  | Integer 0, _ => b
  | _, Integer 0 => a
  | Add l1, Add l2 => Add (l1 ++ l2)
  | Add l1, _ => Add (l1 ++ [b])
  | _, Add l2 => Add (a :: l2)
  | _, _ => Add [a; b]
  end.

Definition neg (a : Expr) : Expr := mul (Integer (-1)) a.

Definition sub (a b : Expr) : Expr :=
  match a, b with
  | Integer m, Integer n => Integer (m - n)
  | _, _ => add a (neg b)
  end.

Definition pow (b n : Expr) : Expr :=
  match n with
  | Integer 0 => Integer 1
  | Integer 1 => b
  | Integer (Zpos k) =>
      match b with
      | Integer m => Integer (m ^ Zpos k)
      | _ => Pow b n
      end
  | _ => Pow b n
  end.

Definition truediv (a b : Expr) : Expr := mul a (pow b (Integer (-1))).

Definition call_exp (g : Expr) : Expr :=
  match g with Integer 0 => Integer 1 | _ => exp g end.
Definition call_log (g : Expr) : Expr :=
  match g with Integer 1 => Integer 0 | _ => log g None end.
Definition call_sin (g : Expr) : Expr :=
  match g with Integer 0 => Integer 0 | _ => sin g end.
Definition call_cos (g : Expr) : Expr :=
  match g with Integer 0 => Integer 1 | _ => cos g end.

Definition product (l : list Expr) : Expr := fold_right mul (Integer 1) l.
Definition total (l : list Expr) : Expr := fold_right add (Integer 0) l.

(** *** Structural algorithms *)

Fixpoint has (e : Expr) (x : string) : bool :=
  match e with
  | Integer _ | Rational _ _ => false
  | Symbol s => String.eqb s x
  | Add l | Mul l | AppliedFunction _ l => existsb (fun a => has a x) l
  | Pow b n => has b x || has n x
  | exp g | sin g | cos g | log g None => has g x
  | log g (Some b) => has g x || has b x
  end.

Fixpoint simplify (e : Expr) : Expr :=
  match e with
  | Add l => total (map simplify l)
  | Mul l => product (map simplify l)
  | Pow b n => pow (simplify b) (simplify n)
  | exp g => call_exp (simplify g)
  | log g None => call_log (simplify g)
  | sin g => call_sin (simplify g)
  | cos g => call_cos (simplify g)
  | _ => e
  end.

Fixpoint derive (e : Expr) (x : string) : Expr :=
  match e with
  | Integer _ | Rational _ _ => Integer 0
  | Symbol s => if String.eqb s x then Integer 1 else Integer 0
  | Add l => total (map (fun a => derive a x) l)
  | Mul l =>
      (fix leibniz (l : list Expr) : Expr :=
         match l with
         | [] => Integer 0
         | a :: r => add (mul (derive a x) (product r)) (mul a (leibniz r))
         end) l
  | Pow b n =>
      if has n x then
        mul e (add (mul (derive n x) (call_log b))
                   (mul n (truediv (derive b x) b)))
      else mul (mul n (pow b (sub n (Integer 1)))) (derive b x)
  | exp g => mul e (derive g x)
  | log g None => truediv (derive g x) g
  | log g (Some b) => truediv (derive g x) (mul g (call_log b))
  | sin g => mul (cos g) (derive g x)
  | cos g => mul (neg (sin g)) (derive g x)
  | AppliedFunction _ _ => AppliedFunction "Derivative" [e; Symbol x]
  end.

Definition diff (e : Expr) (x : string) : Expr :=
  if has e x then derive e x else Integer 0.

Fixpoint polynomial (e : Expr) (x : string) : bool :=
  match e with
  | Symbol _ => true
  | Add l | Mul l => forallb (fun a => polynomial a x) l
  | Pow b n =>
      if has n x then false
      else if has b x then
        polynomial b x &&
        match n with Integer k => Z.leb 0 k | _ => false end
      else true
  | _ => negb (has e x)
  end.

Definition is_polynomial (e : Expr) (x : string) : bool :=
  if has e x then polynomial e x else true.

Definition as_independent (e : Expr) (x : string) : Expr * Expr :=
  match e with
  | Mul l =>
      (product (filter (fun a => negb (has a x)) l),
       product (filter (fun a => has a x) l))
  | _ => if has e x then (Integer 1, e) else (e, Integer 1)
  end.

(** *** Tokenizer *)

Inductive Token : Type :=
| TNum (n : Z) | TId (s : string)
| TPlus | TMinus | TStar | TSlash | TPow | TLParen | TRParen.

Inductive Pending : Type :=
| PNone | PNum (n : Z) | PId (s : string) | PStar.

Definition flush (p : Pending) : list Token :=
  match p with
  | PNone => []
  | PNum n => [TNum n]
  | PId s => [TId s]
  | PStar => [TStar]
  end.

Definition is_digit (c : ascii) : bool :=
  let n := nat_of_ascii c in (48 <=? n)%nat && (n <=? 57)%nat.

Definition is_letter (c : ascii) : bool :=
  let n := nat_of_ascii c in
  ((65 <=? n)%nat && (n <=? 90)%nat) || ((97 <=? n)%nat && (n <=? 122)%nat)
  || (n =? 95)%nat.

Definition digit_value (c : ascii) : Z := Z.of_nat (nat_of_ascii c - 48).

Definition punctuation (c : ascii) : option (list Token) :=
  if Ascii.eqb c "+" then Some [TPlus]
  else if Ascii.eqb c "-" then Some [TMinus]
  else if Ascii.eqb c "/" then Some [TSlash]
  else if Ascii.eqb c "^" then Some [TPow]
  else if Ascii.eqb c "(" then Some [TLParen]
  else if Ascii.eqb c ")" then Some [TRParen]
  else if Ascii.eqb c " " then Some []
  else None.

Fixpoint lex (s : string) (p : Pending) : option (list Token) :=
  match s with
  | EmptyString => Some (flush p)
  | String c s' =>
      if is_digit c then
        match p with
        | PNum n => lex s' (PNum (10 * n + digit_value c))
        | PId i => lex s' (PId (i ++ String c EmptyString))
        | _ => option_map (app (flush p)) (lex s' (PNum (digit_value c)))
        end
      else if is_letter c then
        match p with
        | PId i => lex s' (PId (i ++ String c EmptyString))
        | _ => option_map (app (flush p)) (lex s' (PId (String c EmptyString)))
        end
      else if Ascii.eqb c "*" then
        match p with
        | PStar => option_map (cons TPow) (lex s' PNone)
        | _ => option_map (app (flush p)) (lex s' PStar)
        end
      else
        match punctuation c with
        | Some ts => option_map (fun r => (flush p ++ ts ++ r)%list) (lex s' PNone)
        | None => None
        end
  end.

(** *** Parser *)

Definition call (f : string) (a : Expr) : option Expr :=
  if String.eqb f "sin" then Some (call_sin a)
  else if String.eqb f "cos" then Some (call_cos a)
  else if String.eqb f "exp" then Some (call_exp a)
  else if String.eqb f "log" then Some (call_log a)
  else if String.eqb f "ln" then Some (call_log a)
  else None.

Definition is_function (f : string) : bool :=
  match call f (Integer 2) with Some _ => true | None => false end.

(** A name bound in [local_dict] stands for its value, any other name for
    the symbol of that name. *)
Definition resolve (env : list (string * Expr)) (s : string) : Expr :=
  match find (fun kv => String.eqb (fst kv) s) env with
  | Some kv => snd kv
  | None => Symbol s
  end.

Fixpoint p_sum (env : list (string * Expr)) (n : nat) (ts : list Token)
  : option (Expr * list Token) :=
  match n with
  | O => None
  | S n =>
      match p_product env n ts with
      | Some (a, ts') => p_sum_rest env n a ts'
      | None => None
      end
  end
with p_sum_rest (env : list (string * Expr)) (n : nat) (acc : Expr)
    (ts : list Token)
  : option (Expr * list Token) :=
  match n with
  | O => None
  | S n =>
      match ts with
      | TPlus :: ts' =>
          match p_product env n ts' with
          | Some (b, ts'') => p_sum_rest env n (add acc b) ts''
          | None => None
          end
      | TMinus :: ts' =>
          match p_product env n ts' with
          | Some (b, ts'') => p_sum_rest env n (sub acc b) ts''
          | None => None
          end
      | _ => Some (acc, ts)
      end
  end
with p_product (env : list (string * Expr)) (n : nat) (ts : list Token)
  : option (Expr * list Token) :=
  match n with
  | O => None
  | S n =>
      match p_unary env n ts with
      | Some (a, ts') => p_product_rest env n a ts'
      | None => None
      end
  end
with p_product_rest (env : list (string * Expr)) (n : nat) (acc : Expr)
    (ts : list Token)
  : option (Expr * list Token) :=
  match n with
  | O => None
  | S n =>
      match ts with
      | TStar :: ts' =>
          match p_unary env n ts' with
          | Some (b, ts'') => p_product_rest env n (mul acc b) ts''
          | None => None
          end
      | TSlash :: ts' =>
          match p_unary env n ts' with
          | Some (b, ts'') => p_product_rest env n (truediv acc b) ts''
          | None => None
          end
      | TNum _ :: _ | TId _ :: _ | TLParen :: _ =>
          match p_power env n ts with
          | Some (b, ts'') => p_product_rest env n (mul acc b) ts''
          | None => None
          end
      | _ => Some (acc, ts)
      end
  end
with p_unary (env : list (string * Expr)) (n : nat) (ts : list Token)
  : option (Expr * list Token) :=
  match n with
  | O => None
  | S n =>
      match ts with
      | TMinus :: ts' =>
          match p_unary env n ts' with
          | Some (a, ts'') => Some (neg a, ts'')
          | None => None
          end
      | _ => p_power env n ts
      end
  end
with p_power (env : list (string * Expr)) (n : nat) (ts : list Token)
  : option (Expr * list Token) :=
  match n with
  | O => None
  | S n =>
      match p_atom env n ts with
      | Some (a, TPow :: ts') =>
          match p_unary env n ts' with
          | Some (b, ts'') => Some (pow a b, ts'')
          | None => None
          end
      | r => r
      end
  end
with p_atom (env : list (string * Expr)) (n : nat) (ts : list Token)
  : option (Expr * list Token) :=
  match n with
  | O => None
  | S n =>
      match ts with
      | TNum k :: ts' => Some (Integer k, ts')
      | TId f :: TLParen :: ts' =>
          if is_function f then
            match p_sum env n ts' with
            | Some (a, TRParen :: ts'') =>
                match call f a with
                | Some r => Some (r, ts'')
                | None => None
                end
            | _ => None
            end
          else Some (resolve env f, TLParen :: ts')
      | TId s :: ts' => Some (resolve env s, ts')
      | TLParen :: ts' =>
          match p_sum env n ts' with
          | Some (a, TRParen :: ts'') => Some (a, ts'')
          | _ => None
          end
      | _ => None
      end
  end.

Definition parse (s : string) (local_dict : list (string * Expr))
  : option Expr :=
  match lex s PNone with
  | Some ts =>
      match p_sum local_dict (10 * List.length ts + 10) ts with
      | Some (e, []) => Some e
      | _ => None
      end
  | None => None
  end.

(** *** Printing *)

Definition digit_string (n : nat) : string :=
  String (ascii_of_nat (48 + n)) EmptyString.

Fixpoint nat_string (fuel n : nat) (acc : string) : string :=
  match fuel with
  | O => acc
  | S fuel =>
      let acc := digit_string (n mod 10) ++ acc in
      if (n <? 10)%nat then acc else nat_string fuel (n / 10) acc
  end.

Definition Z_string (z : Z) : string :=
  let n := Z.abs_nat z in
  (if Z.ltb z 0 then "-" else "") ++ nat_string (S n) n "".

Fixpoint str (e : Expr) : string :=
  let infix (sep : string) (l : list Expr) :=
    "(" ++ fold_right (fun a acc =>
              if String.eqb acc "" then str a else str a ++ sep ++ acc)
            "" l ++ ")" in
  match e with
  | Integer n => Z_string n
  | Rational p q => Z_string p ++ "/" ++ Z_string (Zpos q)
  | Symbol s => s
  | Add l => infix " + " l
  | Mul l => infix "*" l
  | Pow b n => str b ++ "**" ++ str n
  | exp g => "exp(" ++ str g ++ ")"
  | log g None => "log(" ++ str g ++ ")"
  | log g (Some b) => "log(" ++ str g ++ ", " ++ str b ++ ")"
  | sin g => "sin(" ++ str g ++ ")"
  | cos g => "cos(" ++ str g ++ ")"
  | AppliedFunction f l => f ++ infix ", " l
  end.

Definition repr (s : string) : string := "'" ++ s ++ "'".

Definition engine : Engine :=
  mkEngine parse (fun e => e) simplify (fun e => e) diff as_independent
    is_polynomial has mul add sub truediv pow neg
    call_exp call_log call_sin call_cos str repr.

End Toy.

(* ===================================================================== *)
(** ** Specification vocabulary *)
(* ===================================================================== *)

(** The invariant of a [RuleResult]. *)
Definition RuleResult_invariant (r : RuleResult) : Prop :=
  (applied r = false -> output_expr r = input_expr r /\ steps r = []) /\
  (applied r = true -> steps r <> [] /\ message r <> "") /\
  rule_name r <> "".

(** The expression a text or tree argument is read as, for the variable
    [var]: what every matcher starts from. *)
Definition parsed (sp : Engine) (expr : ExprArg) (var : VarArg) : Result Expr :=
  parse_expr sp expr (bind_symbol (get_symbol var)).

(** A matcher raises exactly the parse error, returns a result that bears
    its own name and satisfies the invariant otherwise. *)
Definition well_behaved (sp : Engine) (name : string) (m : Matcher) : Prop :=
  forall expr var,
    match parsed sp expr var with
    | Ok _ =>
        exists r, m expr var = Ok r /\ rule_name r = name /\
                  RuleResult_invariant r
    | Raise exn => m expr var = Raise exn
    end.

(** The factors of the variable-dependent part of a product. *)
Definition remaining_factors (rest : Expr) : list Expr :=
  match rest with
  | Mul l => l
  | _ => [rest]
  end.

(** The five outer forms of the chain rule, each with its closed form
    before the final simplification. *)
Inductive ChainForm (sp : Engine) (x : string) : Expr -> Expr -> Prop :=
| chain_power g n :
    has sp g x = true -> has sp n x = false -> n <> Integer 1 ->
    ChainForm sp x (Pow g n)
      (mul sp (mul sp n (pow sp g (sub sp n (Integer 1)))) (diff sp g x))
| chain_exp g :
    has sp g x = true ->
    ChainForm sp x (exp g) (mul sp (call_exp sp g) (diff sp g x))
| chain_ln g :
    has sp g x = true ->
    ChainForm sp x (log g None) (truediv sp (diff sp g x) g)
| chain_sin g :
    has sp g x = true ->
    ChainForm sp x (sin g) (mul sp (call_cos sp g) (diff sp g x))
| chain_cos g :
    has sp g x = true ->
    ChainForm sp x (cos g) (mul sp (neg sp (call_sin sp g)) (diff sp g x)).

(** A matcher declines an input: it returns normally, with
    [applied = False]. *)
Definition declines (m : Matcher) (expr : ExprArg) (var : VarArg) : Prop :=
  exists r, m expr var = Ok r /\ applied r = false.

(** The rule of a given name declines an input. *)
Definition rule_declines (sp : Engine) (expr : ExprArg) (var : VarArg)
    (name : string) : Prop :=
  exists m, lookup name (rule_map sp) = Some m /\ declines m expr var.

(** The result of the fallback path on the parsed expression [f]. *)
Definition symbolic_fallback (sp : Engine) (f : Expr) (x : string) : RuleResult :=
  {| input_expr := f;
     output_expr := simplify sp (diff sp f x);
     applied := true;
     rule_name := "symbolic_fallback";
     message := "No simple rule matched; used symbolic differentiation fallback.";
     steps := ["Apply generic symbolic derivative d/dx."] |}.

(** What the collaborator is relied on for when an expression is free of
    the variable: expansion introduces no variable, a variable-free
    expression is a (constant) polynomial with derivative zero, and zero is
    in simplest form. *)
Definition variable_free_laws (sp : Engine) : Prop :=
  (forall e x, has sp e x = false -> has sp (expand sp e) x = false) /\
  (forall e x, has sp e x = false -> is_polynomial sp e x = true) /\
  (forall e x, has sp e x = false -> diff sp e x = Integer 0) /\
  simplify sp (Integer 0) = Integer 0.

(** What SymPy does on the text [x^x] of the test suite: it is read as the
    power of the variable by itself, which no normalisation rewrites, which
    is not a polynomial and has no constant factor. *)
Definition reads_x_pow_x (sp : Engine) : Prop :=
  let X := Symbol "x" in
  parse sp "x^x" [("x", X)] = Some (Pow X X) /\
  has sp X "x" = true /\
  expand sp (Pow X X) = Pow X X /\
  is_polynomial sp (Pow X X) "x" = false /\
  factor_terms sp (Pow X X) = Pow X X /\
  as_independent sp (Pow X X) "x" = (Integer 1, Pow X X) /\
  simplify sp (Pow X X) = Pow X X.

(** The factors of a product that depend on the variable, once the
    variable-independent factor is set apart. *)
Definition dependent_factors (sp : Engine) (e : Expr) (x : string) : list Expr :=
  filter (fun f => has sp f x) (remaining_factors (snd (as_independent sp e x))).

(** The sample inputs of the test suite, as trees. *)
Definition X : Expr := Symbol "x".
Definition two_x : Expr := Mul [Integer 2; X].
Definition cubic : Expr := Add [Pow X (Integer 3); Pow X (Integer 2); Integer 8].
Definition cubic_derivative : Expr :=
  Add [Mul [Integer 3; Pow X (Integer 2)]; Mul [Integer 2; X]].
Definition sine_plus_square : Expr := Add [sin X; Pow X (Integer 2)].
Definition triple_product : Expr :=
  Mul [Add [X; Integer 1]; Add [X; Integer 2]; Add [X; Integer 3]].
Definition two_pow_three_x : Expr := Pow (Integer 2) (Mul [Integer 3; X]).

(** What SymPy does on [2^(3*x)]: the caret is the power, the exponent is
    the product as written. *)
Definition reads_two_pow_three_x (sp : Engine) : Prop :=
  parse sp "2^(3*x)" [("x", X)] = Some two_pow_three_x.

(** What SymPy does on [sin(2*x)]: nothing to simplify, the argument
    depends on [x] and has derivative 2, and the product [cos(2*x)*2] is
    kept as [2*cos(2*x)]. *)
Definition reads_sin_two_x (sp : Engine) : Prop :=
  parse sp "sin(2*x)" [("x", X)] = Some (sin two_x) /\
  simplify sp (sin two_x) = sin two_x /\
  has sp two_x "x" = true /\
  diff sp two_x "x" = Integer 2 /\
  call_cos sp two_x = cos two_x /\
  mul sp (cos two_x) (Integer 2) = Mul [Integer 2; cos two_x] /\
  simplify sp (Mul [Integer 2; cos two_x]) = Mul [Integer 2; cos two_x].

(** [3 * sp.Symbol("x") ** 2 + 2 * sp.Symbol("x")], the expression the
    test suite compares the derivative of the cubic with. *)
Definition expected_cubic_derivative (sp : Engine) : Expr :=
  add sp (mul sp (Integer 3) (pow sp X (Integer 2))) (mul sp (Integer 2) X).

(** Equality as the test suite checks it: the difference simplifies to 0. *)
Definition equal_after_simplification (sp : Engine) (a b : Expr) : Prop :=
  simplify sp (sub sp a b) = Integer 0.

(** What SymPy does on [x^3 + x^2 + 8]: already expanded, a polynomial,
    with derivative [3*x^2 + 2*x]; whatever form simplification gives this
    derivative (SymPy writes it [x*(3*x + 2)]), it is still equal to
    [3*x^2 + 2*x] after simplification of the difference. *)
Definition reads_cubic (sp : Engine) : Prop :=
  parse sp "x^3 + x^2 + 8" [("x", X)] = Some cubic /\
  expand sp cubic = cubic /\
  is_polynomial sp cubic "x" = true /\
  diff sp cubic "x" = cubic_derivative /\
  equal_after_simplification sp (simplify sp cubic_derivative)
    (expected_cubic_derivative sp).

(** The executable engine with a subtraction that cancels equal operands,
    as SymPy's does. *)
Definition cancelling_engine : Engine :=
  mkEngine Toy.parse (fun e => e) Toy.simplify (fun e => e) Toy.diff
    Toy.as_independent Toy.is_polynomial Toy.has Toy.mul Toy.add
    (fun a b => if expr_eqb a b then Integer 0 else Toy.sub a b)
    Toy.truediv Toy.pow Toy.neg
    Toy.call_exp Toy.call_log Toy.call_sin Toy.call_cos Toy.str Toy.repr.

(** What SymPy does on [sin(x) + x^2]: already expanded, not a polynomial. *)
Definition reads_sine_plus_square (sp : Engine) : Prop :=
  parse sp "sin(x) + x^2" [("x", X)] = Some sine_plus_square /\
  expand sp sine_plus_square = sine_plus_square /\
  is_polynomial sp sine_plus_square "x" = false.

(** What SymPy does on [(x+1)*(x+2)*(x+3)]: the product of three sums is
    kept by simplification, has no constant factor, and each of the sums
    depends on [x]. *)
Definition reads_triple_product (sp : Engine) : Prop :=
  parse sp "(x+1)*(x+2)*(x+3)" [("x", X)] = Some triple_product /\
  simplify sp triple_product = triple_product /\
  as_independent sp triple_product "x" = (Integer 1, triple_product) /\
  has sp (Add [X; Integer 1]) "x" = true /\
  has sp (Add [X; Integer 2]) "x" = true /\
  has sp (Add [X; Integer 3]) "x" = true.

(** The malformed text [x**] is rejected by SymPy's parser. *)
Definition rejects_dangling_power (sp : Engine) : Prop :=
  parse sp "x**" [("x", X)] = None.

(** The names the dispatcher accepts. *)
Definition allowed_rules : list string :=
  ["auto"; "power_rule"; "constant_multiple_rule"; "product_rule";
   "chain_rule"; "exponential_rule"].

(** One string occurs inside another. *)
Definition mentions (msg part : string) : Prop :=
  exists before after, msg = before ++ part ++ after.

(* ===================================================================== *)
(** ** Evaluation at a point: [_core.py] and [calculator.py] *)
(* ===================================================================== *)

(** [evaluate_function] and [evaluate_derivative_at] substitute a value for
    the variable.  The value ([Union[int, float, sp.Expr]]) is handed to
    SymPy's [subs] as it is, so its type [Value] is left open and [subs] is
    one more operation of the collaborator. *)
Section Evaluation.
Variable sp : Engine.
Variable Value : Type.
Variable subs : Expr -> string -> Value -> Expr.

Definition evaluate_function (expr : ExprArg) (x_value : Value) (var : VarArg)
  : Result Expr :=
  let x := get_symbol var in
  f <- parse_expr sp expr (bind_symbol x) ;;
  Ok (simplify sp (subs f x x_value)).

Definition evaluate_derivative_at (expr : ExprArg) (x_value : Value)
    (var : VarArg) : Result Expr :=
  derivative <- differentiate_with_rules sp expr var ;;
  evaluate_function (Tree (output_expr derivative)) x_value var.

End Evaluation.

(* ===================================================================== *)
(** ** [demo_derivative_rule.py] *)
(* ===================================================================== *)

(** [s * n] on strings. *)
Fixpoint repeat_string (s : string) (n : nat) : string :=
  match n with
  | O => ""
  | S n' => s ++ repeat_string s n'
  end.

(** [str] of a [bool]. *)
Definition str_bool (b : bool) : string := if b then "True" else "False".

(** [show]: the arguments of its calls of [print], in order, one element
    per call ([print()] is the empty string).  An argument that holds a
    line break is printed as several lines; the list counts calls, not
    lines. *)
Definition show (sp : Engine) (title : string) (result : RuleResult)
  : list string :=
  let header :=
    [ repeat_string "=" 70;
      title;
      "Applied?  " ++ str_bool (applied result);
      "Message:  " ++ message result;
      "Input:    " ++ str sp (input_expr result);
      "Output:   " ++ str sp (output_expr result) ] in
  let block :=
    match steps result with
    | [] => []
    | _ :: _ => "Steps:" :: map (fun s => "  - " ++ s) (steps result)
    end in
  List.app header (List.app block [ "" ]).

(** Substitution of an integer for a symbol, for the executable engine. *)
Fixpoint toy_subs (e : Expr) (x : string) (v : Z) : Expr :=
  match e with
  | Integer _ | Rational _ _ => e
  | Symbol s => if String.eqb s x then Integer v else e
  | Add l => Add (map (fun a => toy_subs a x v) l)
  | Mul l => Mul (map (fun a => toy_subs a x v) l)
  | Pow b n => Pow (toy_subs b x v) (toy_subs n x v)
  | exp g => exp (toy_subs g x v)
  | log g None => log (toy_subs g x v) None
  | log g (Some b) => log (toy_subs g x v) (Some (toy_subs b x v))
  | sin g => sin (toy_subs g x v)
  | cos g => cos (toy_subs g x v)
  | AppliedFunction f l => AppliedFunction f (map (fun a => toy_subs a x v) l)
  end.

(** A rule accepts an input: it returns normally, with [applied = True]. *)
Definition accepts (m : Matcher) (expr : ExprArg) (var : VarArg) : Prop :=
  exists r, m expr var = Ok r /\ applied r = true.

(** The names a result of [differentiate_with_rules] can bear. *)
Definition result_names : list string :=
  (ordered_rules ++ ["symbolic_fallback"])%list.

(** The two shapes of a matcher's result: applied, with a message that
    starts with "Applied " and two steps; or not applicable, with a message
    that starts with "Not applicable: ", no step and the input as output. *)
Definition well_shaped (r : RuleResult) : Prop :=
  if applied r then
    String.prefix "Applied " (message r) = true /\
    List.length (steps r) = 2%nat
  else
    String.prefix "Not applicable: " (message r) = true /\
    steps r = [] /\ output_expr r = input_expr r.

(* ===================================================================== *)
(** ** Texts whose value is not an expression *)
(* ===================================================================== *)

(** SymPy's parser evaluates the transformed text as Python code, and the
    value need not be an [sp.Expr]: [(1, 2)] is a tuple, [True] a boolean,
    [x > 1] a relational.  [parse_expr] of [_core.py] guards the call of
    the parser only and hands such a value on as it is. *)
Inductive NonExpr : Type :=
| PyTuple (items : list Expr)
| PyBool (b : bool)
| Relational (op : string) (lhs rhs : Expr).

(** What the parser returns. *)
Inductive Parsed : Type :=
| AnExpr (e : Expr)
| NotAnExpr (o : NonExpr).

Section NonExpressions.
Variable sp : Engine.

(** The parser with every value it can return ([None] when it raises). *)
Variable parse_any : string -> list (string * Expr) -> option Parsed.

(** [sp.expand] on a value that is not an expression: it returns a value
    of that kind again, or there is no [expand] to call ([None], an
    [AttributeError]). *)
Variable expand_other : NonExpr -> option NonExpr.

Definition parse_expr_any (expr : ExprArg)
    (local_dict : option (list (string * Expr))) : Result Parsed :=
  match expr with
  | Tree e => Ok (AnExpr e)
  | Text s =>
      match parse_any s (or_empty local_dict) with
      | Some v => Ok v
      | None => Raise (ValueError (invalid_expression_message (repr sp s)))
      end
  end.

(** [sp.expand(f)] *)
Definition expand_any (f : Parsed) : Result Parsed :=
  match f with
  | AnExpr e => Ok (AnExpr (expand sp e))
  | NotAnExpr o =>
      match expand_other o with
      | Some o' => Ok (NotAnExpr o')
      | None => Raise AttributeError
      end
  end.

(** [f.is_polynomial(x)]: a method of expressions only; the answer comes
    with the expression it was asked of, which the rest of the function
    goes on with. *)
Definition is_polynomial_any (f : Parsed) (x : string) : Result (Expr * bool) :=
  match f with
  | AnExpr e => Ok (e, is_polynomial sp e x)
  | NotAnExpr _ => Raise AttributeError
  end.

(** [apply_power_rule_derivative], with every value the parser can
    return. *)
Definition apply_power_rule_derivative_any (expr : ExprArg) (var : VarArg)
  : Result RuleResult :=
  let x := get_symbol var in
  let rule_name := "power_rule" in
  f <- parse_expr_any expr (bind_symbol x) ;;
  f <- expand_any f ;;
  polynomial <- is_polynomial_any f x ;;
  let '(f, is_poly) := polynomial in
  if negb is_poly then
    Ok (not_applicable f rule_name
          "Not applicable: expression is not a polynomial in x (power-rule mode).")
  else
    let out := simplify sp (diff sp f x) in
    Ok {| input_expr := f;
          output_expr := out;
          applied := true;
          rule_name := rule_name;
          message := "Applied power rule term-by-term (polynomial).";
          steps := ["Recognize polynomial in x."; "Differentiate each term."] |}.

End NonExpressions.

(** The pieces of a text between its commas. *)
Fixpoint split_on_commas (s : string) (piece : string) : list string :=
  match s with
  | EmptyString => [piece]
  | String c s' =>
      if Ascii.eqb c "," then piece :: split_on_commas s' ""
      else split_on_commas s' (piece ++ String c EmptyString)
  end.

(** A text without its last character, when that is a closing bracket. *)
Fixpoint without_closing (s : string) : option string :=
  match s with
  | EmptyString => None
  | String c EmptyString => if Ascii.eqb c ")" then Some "" else None
  | String c s' => option_map (String c) (without_closing s')
  end.

Fixpoint parse_all (pieces : list string) : option (list Expr) :=
  match pieces with
  | [] => Some []
  | piece :: rest =>
      match Toy.parse piece [], parse_all rest with
      | Some e, Some l => Some (e :: l)
      | _, _ => None
      end
  end.

(** The executable parser, extended to bracketed tuples of expressions. *)
Definition toy_parse_any (s : string) (local_dict : list (string * Expr))
  : option Parsed :=
  match Toy.parse s local_dict with
  | Some e => Some (AnExpr e)
  | None =>
      match s with
      | String "(" inner =>
          match without_closing inner with
          | Some body =>
              match split_on_commas body "" with
              | (_ :: _ :: _) as pieces =>
                  option_map (fun l => NotAnExpr (PyTuple l)) (parse_all pieces)
              | _ => None
              end
          | None => None
          end
      | _ => None
      end
  end.

(** A tuple has no [expand]. *)
Definition toy_expand_other (o : NonExpr) : option NonExpr :=
  match o with
  | PyTuple _ => None
  | _ => Some o
  end.

(** Proof steps shared by the matchers: read the input, then exhibit the
    result and check its name and invariant. *)
Ltac literal := solve [discriminate | intro; discriminate].

Ltac start sp m :=
  intros expr var; unfold parsed, m;
  destruct (parse_expr sp expr (bind_symbol (get_symbol var))) as [f|exn];
  [cbn [bind] | reflexivity].

Ltac invariant :=
  unfold RuleResult_invariant; cbn; repeat split;
  first [ literal
        | intros _; split; first [reflexivity | literal] ].

Ltac finish :=
  eexists; split; [reflexivity|]; split; [reflexivity|]; invariant.

(** The three facts of a chain-rule case: the result is applied exactly on
    a [ChainForm], and its output is the simplified closed form. *)
Ltac chain_case :=
  eexists; split; [reflexivity|]; split; [reflexivity|]; cbn; split;
  [ split;
    [ first [ discriminate | intros _; eexists; constructor; assumption ]
    | first [ intros _; reflexivity
            | intros (d & C); inversion C; subst; congruence ] ]
  | intros d C; inversion C; subst; first [reflexivity | congruence] ].

(** The hypotheses about the collaborator hold of the executable engine by
    evaluation. *)
Ltac by_running := repeat apply conj; vm_compute; reflexivity.

(** The same for the shape of a result: read the input, then check the
    result the matcher returned. *)
Ltac read sp expr var m :=
  intros r; unfold m;
  destruct (parse_expr sp expr (bind_symbol (get_symbol var))) as [f|exn];
  cbn [bind]; [|discriminate].

Ltac shaped :=
  let H := fresh in
  intros H; injection H as <-; unfold well_shaped; cbn; repeat split.

(* ===================================================================== *)
(** ** Structural equality is decided by [expr_eqb] *)
(* ===================================================================== *)

Lemma list_eqb_eq (l1 : list Expr) :
  Forall (fun a => forall b, expr_eqb a b = true <-> a = b) l1 ->
  forall l2, list_eqb expr_eqb l1 l2 = true <-> l1 = l2.
Proof.
  induction 1 as [|a l1 Ha _ IH]; intros [|b l2]; simpl;
    try (split; [discriminate | discriminate]); try tauto.
  rewrite andb_true_iff, Ha, IH. split.
  - intros [-> ->]. reflexivity.
  - intros H. injection H as -> ->. auto.
Qed.

Lemma expr_eqb_eq (a b : Expr) : expr_eqb a b = true <-> a = b.
Proof.
  revert b. induction a using Expr_ind; intros b; destruct b; simpl;
    try (split; [discriminate | discriminate]).
  - rewrite Z.eqb_eq. split; congruence.
  - rewrite andb_true_iff, Z.eqb_eq, Pos.eqb_eq. split.
    + intros [-> ->]; reflexivity.
    + intros E; injection E as -> ->; auto.
  - rewrite String.eqb_eq. split; congruence.
  - rewrite (list_eqb_eq H). split; congruence.
  - rewrite (list_eqb_eq H). split; congruence.
  - rewrite andb_true_iff, IHa1, IHa2. split.
    + intros [-> ->]; reflexivity.
    + intros E; injection E as -> ->; auto.
  - rewrite IHa. split; congruence.
  - destruct base; simpl.
    + split; [intros E; destruct (expr_eqb a b); discriminate | discriminate].
    + rewrite andb_true_r, IHa. split; congruence.
  - destruct base; simpl.
    + rewrite andb_true_iff, IHa1, IHa2. split.
      * intros [-> ->]; reflexivity.
      * intros E; injection E as -> ->; auto.
    + rewrite andb_false_r. split; discriminate.
  - rewrite IHa. split; congruence.
  - rewrite IHa. split; congruence.
  - rewrite andb_true_iff, String.eqb_eq, (list_eqb_eq H). split.
    + intros [-> ->]; reflexivity.
    + intros E; injection E as -> ->; auto.
Qed.

Lemma string_append_assoc (a b c : string) : (a ++ b) ++ c = a ++ (b ++ c).
Proof.
  induction a as [|ch a IH]; simpl; [reflexivity | rewrite IH; reflexivity].
Qed.

Lemma expr_eqb_neq (a b : Expr) : expr_eqb a b = false <-> a <> b.
Proof.
  rewrite <- expr_eqb_eq. destruct (expr_eqb a b); split; congruence.
Qed.


(* ===================================================================== *)
(** ** The matchers, one by one *)
(* ===================================================================== *)

Section Matchers.
Variable sp : Engine.

Lemma applied_invariant (e out : Expr) (name msg : string) (st : list string) :
  name <> "" -> msg <> "" -> st <> [] ->
  RuleResult_invariant (mkRuleResult e out true name msg st).
Proof.
  intros Hn Hm Hs. repeat split; simpl; auto; discriminate.
Qed.

Lemma parse_expr_raise (expr : ExprArg) (d : option (list (string * Expr)))
    (exn : Exception) :
  parse_expr sp expr d = Raise exn <->
  exists s, expr = Text s /\ parse sp s (or_empty d) = None /\
            exn = ValueError (invalid_expression_message (repr sp s)).
Proof.
  destruct expr as [s|e]; simpl.
  - destruct (parse sp s (or_empty d)) eqn:E; split.
    + discriminate.
    + intros (s' & Hs & Hp & _). injection Hs as <-. congruence.
    + intros H. injection H as <-. eauto.
    + intros (s' & Hs & _ & ->). injection Hs as <-. reflexivity.
  - split; [discriminate | intros (s & Hs & _); discriminate].
Qed.

Lemma power_rule_well_behaved :
  well_behaved sp "power_rule" (apply_power_rule_derivative sp).
Proof.
  start sp apply_power_rule_derivative.
  destruct (is_polynomial sp (expand sp f) (get_symbol var)); cbn [negb];
    finish.
Qed.

Lemma constant_multiple_rule_well_behaved :
  well_behaved sp "constant_multiple_rule"
    (apply_constant_multiple_derivative sp).
Proof.
  start sp apply_constant_multiple_derivative.
  destruct (as_independent sp (factor_terms sp f) (get_symbol var)) as [c rest].
  destruct (expr_eqb c (Integer 1)); finish.
Qed.

Lemma filter_length_two (A : Type) (l : list A) :
  (List.length l =? 2)%nat = true -> exists a b, l = [a; b].
Proof.
  destruct l as [|a [|b [|c l]]]; simpl; try discriminate. eauto.
Qed.

Lemma product_rule_well_behaved :
  well_behaved sp "product_rule" (apply_product_rule sp).
Proof.
  start sp apply_product_rule.
  destruct (simplify sp f) eqn:E; try finish.
  destruct (as_independent sp (Mul args0) (get_symbol var)) as [c rest].
  match goal with |- context [filter ?p ?l] => set (nonconst := filter p l) end.
  destruct (List.length nonconst =? 2)%nat eqn:L; cbn [negb].
  - destruct (filter_length_two _ L) as (a & b & ->). finish.
  - finish.
Qed.

Lemma chain_rule_well_behaved :
  well_behaved sp "chain_rule" (apply_chain_rule sp).
Proof.
  start sp apply_chain_rule.
  destruct (simplify sp f) as [ | | | | |g n|g|g [b|]|g|g| ]; cbn;
    try finish;
    try (destruct (has sp g (get_symbol var)); cbn; try finish).
  destruct (has sp n (get_symbol var)); cbn; try finish.
  destruct (expr_eqb n (Integer 1)); cbn; finish.
Qed.

Lemma exponential_rule_well_behaved :
  well_behaved sp "exponential_rule" (apply_exponential_derivative_rule sp).
Proof.
  start sp apply_exponential_derivative_rule.
  destruct f as [ | | | | |a expo| | | | | ]; try finish.
  destruct (expr_eqb expo (Symbol (get_symbol var))); cbn [negb]; try finish.
  destruct (has sp a (get_symbol var)); finish.
Qed.

Lemma rule_map_well_behaved :
  Forall (fun entry => well_behaved sp (fst entry) (snd entry)) (rule_map sp).
Proof.
  unfold rule_map. repeat constructor; cbn [fst snd].
  - apply power_rule_well_behaved.
  - apply constant_multiple_rule_well_behaved.
  - apply product_rule_well_behaved.
  - apply chain_rule_well_behaved.
  - apply exponential_rule_well_behaved.
Qed.

Lemma lookup_well_behaved (name : string) (m : Matcher) :
  lookup name (rule_map sp) = Some m -> well_behaved sp name m.
Proof.
  unfold rule_map. cbn [lookup].
  repeat match goal with
  | |- context [String.eqb name ?lit] =>
      destruct (String.eqb_spec name lit) as [->|_]
  end; intros H; try discriminate; injection H as <-.
  - apply power_rule_well_behaved.
  - apply constant_multiple_rule_well_behaved.
  - apply product_rule_well_behaved.
  - apply chain_rule_well_behaved.
  - apply exponential_rule_well_behaved.
Qed.

Lemma ordered_rules_registered :
  Forall (fun name => exists m, lookup name (rule_map sp) = Some m)
    ordered_rules.
Proof.
  unfold ordered_rules. repeat constructor; eexists; reflexivity.
Qed.

Lemma well_behaved_raise (name : string) (m : Matcher) expr var exn :
  well_behaved sp name m -> parsed sp expr var = Raise exn ->
  m expr var = Raise exn.
Proof.
  intros W P. specialize (W expr var). rewrite P in W. exact W.
Qed.

Lemma well_behaved_result (name : string) (m : Matcher) expr var r :
  well_behaved sp name m -> m expr var = Ok r ->
  rule_name r = name /\ RuleResult_invariant r /\
  exists f, parsed sp expr var = Ok f.
Proof.
  intros W R. specialize (W expr var).
  destruct (parsed sp expr var) as [f|exn].
  - destruct W as (r' & R' & N & I). rewrite R in R'. injection R' as <-.
    eauto.
  - congruence.
Qed.

Lemma well_behaved_raise_iff (name : string) (m : Matcher) expr var exn :
  well_behaved sp name m ->
  m expr var = Raise exn <-> parsed sp expr var = Raise exn.
Proof.
  intros W. specialize (W expr var).
  destruct (parsed sp expr var) as [f|exn'].
  - destruct W as (r & R & _). rewrite R. split; discriminate.
  - rewrite W. split; intros E; injection E as <-; reflexivity.
Qed.

(* ===================================================================== *)
(** ** The loop of auto mode *)
(* ===================================================================== *)

Lemma auto_loop_outcome (rules : list string) (last : option RuleResult)
    (expr : ExprArg) (var : VarArg) :
  Forall (fun name => exists m, lookup name (rule_map sp) = Some m) rules ->
  match auto_loop sp rules last expr var with
  | Ok res =>
      (exists pre name post m r,
          rules = pre ++ name :: post /\
          Forall (rule_declines sp expr var) pre /\
          lookup name (rule_map sp) = Some m /\
          m expr var = Ok r /\ applied r = true /\ res = Some r)%list
      \/
      (Forall (rule_declines sp expr var) rules /\
       ((rules = [] /\ res = last) \/
        (exists pre name m r,
            rules = pre ++ [name] /\
            lookup name (rule_map sp) = Some m /\
            m expr var = Ok r /\ applied r = false /\ res = Some r)))%list
  | Raise exn =>
      (exists pre name post m,
          rules = pre ++ name :: post /\
          Forall (rule_declines sp expr var) pre /\
          lookup name (rule_map sp) = Some m /\
          m expr var = Raise exn)%list
  end.
Proof.
  intros Reg. revert last.
  induction Reg as [|name rules [m Hm] Reg IH]; intros last.
  - cbn. right. split; [constructor | left; auto].
  - cbn [auto_loop]. unfold getitem. rewrite Hm. cbn [bind].
    destruct (m expr var) as [r|exn] eqn:R; cbn [bind].
    + destruct (applied r) eqn:A.
      * left. exists [], name, rules, m, r. cbn. repeat split; auto.
      * assert (D : rule_declines sp expr var name)
          by (exists m; split; [exact Hm | exists r; auto]).
        specialize (IH (Some r)).
        destruct (auto_loop sp rules (Some r) expr var) as [res|exn].
        -- destruct IH as [(pre & n' & post & m' & r' & -> & F & L & R' & A' & ->)
                          | (F & [[-> ->] | (pre & n' & m' & r' & -> & L & R' & A' & ->)])].
           ++ left. exists (name :: pre), n', post, m', r'.
              repeat split; auto.
           ++ right. split; [repeat constructor; auto|]. right.
              exists [], name, m, r. repeat split; auto.
           ++ right. split; [constructor; auto|]. right.
              exists (name :: pre), n', m', r'. repeat split; auto.
        -- destruct IH as (pre & n' & post & m' & -> & F & L & R').
           exists (name :: pre), n', post, m'. repeat split; auto.
    + exists [], name, rules, m. repeat split; auto.
Qed.

(** Auto mode, in full: the result comes from the first rule of
    [ordered_rules] that applies, or from the last rule when none does; an
    exception can only be the parse error. *)
Lemma auto_mode_outcome (expr : ExprArg) (var : VarArg) :
  match apply_derivative_rule sp expr var "auto" with
  | Ok (Some r) =>
      exists earlier later m,
        (ordered_rules = earlier ++ rule_name r :: later)%list /\
        lookup (rule_name r) (rule_map sp) = Some m /\
        m expr var = Ok r /\
        Forall (rule_declines sp expr var) earlier /\
        (applied r = true \/ (later = [] /\ applied r = false))
  | Ok None => False
  | Raise exn => parsed sp expr var = Raise exn
  end.
Proof.
  unfold apply_derivative_rule. cbn [String.eqb Ascii.eqb Bool.eqb].
  pose proof (auto_loop_outcome None expr var ordered_rules_registered) as H.
  destruct (auto_loop sp ordered_rules None expr var) as [[r|]|exn].
  - destruct H as [(pre & name & post & m & r' & E & F & L & R & A & S)
                  | (F & [[E _] | (pre & name & m & r' & E & L & R & A & S)])];
      try discriminate; injection S as <-.
    + destruct (well_behaved_result expr var (lookup_well_behaved _ L) R)
        as (N & _). subst name. exists pre, post, m.
      repeat split; auto.
    + destruct (well_behaved_result expr var (lookup_well_behaved _ L) R)
        as (N & _). subst name. exists pre, [], m.
      rewrite E in F. apply Forall_app in F. destruct F as [F _].
      repeat split; auto.
  - destruct H as [(pre & name & post & m & r' & E & F & L & R & A & S)
                  | (F & [[E _] | (pre & name & m & r' & E & L & R & A & S)])];
      discriminate.
  - destruct H as (pre & name & post & m & E & F & L & R).
    pose proof (lookup_well_behaved _ L expr var) as W.
    destruct (parsed sp expr var); [|congruence].
    destruct W as (r & R' & _). congruence.
Qed.

Lemma declined_earlier (expr : ExprArg) (var : VarArg) (earlier : list string) :
  Forall (rule_declines sp expr var) earlier ->
  forall name m r,
    In name earlier -> lookup name (rule_map sp) = Some m ->
    m expr var = Ok r -> applied r = false.
Proof.
  intros F name m r I L R. rewrite Forall_forall in F.
  destruct (F name I) as (m' & L' & r' & R' & A). congruence.
Qed.

Lemma ordered_rules_last (pre : list string) (name : string) :
  (ordered_rules = pre ++ [name])%list -> name = "exponential_rule".
Proof.
  intros E. apply (f_equal (fun l => List.last l "")) in E.
  rewrite last_last in E. symmetry. exact E.
Qed.

End Matchers.

(* ===================================================================== *)
(** ** The claims *)
(* ===================================================================== *)

(** C1.  The invariant of [RuleResult] holds for every result a matcher,
    the dispatcher (in auto mode or with a named rule) or
    [differentiate_with_rules] returns: without [applied], the output is
    the input and there are no steps; with [applied], steps and message are
    non-empty; the rule name is never empty. *)
Theorem rule_result_invariant (sp : Engine) (expr : ExprArg) (var : VarArg) :
  Forall (fun entry : string * Matcher =>
            forall r, snd entry expr var = Ok r -> RuleResult_invariant r)
         (rule_map sp) /\
  (forall rule r,
      apply_derivative_rule sp expr var rule = Ok (Some r) ->
      RuleResult_invariant r) /\
  (forall r,
      differentiate_with_rules sp expr var = Ok r -> RuleResult_invariant r).
Proof.
  assert (Auto : forall r,
             apply_derivative_rule sp expr var "auto" = Ok (Some r) ->
             RuleResult_invariant r).
  { intros r H. pose proof (auto_mode_outcome sp expr var) as O.
    rewrite H in O. destruct O as (pre & post & m & _ & L & R & _).
    apply (well_behaved_result expr var (lookup_well_behaved _ _ L) R). }
  split; [|split].
  - pose proof (rule_map_well_behaved sp) as W.
    induction W as [|[name m] l W _ IH]; constructor; auto.
    intros r R. apply (well_behaved_result expr var W R).
  - intros rule r H. destruct (String.eqb_spec rule "auto") as [->|Hne].
    + auto.
    + unfold apply_derivative_rule in H.
      destruct (String.eqb_spec rule "auto"); [contradiction|].
      destruct (lookup rule (rule_map sp)) as [m|] eqn:L; [|discriminate].
      destruct (m expr var) as [r'|] eqn:R; [|discriminate].
      injection H as ->.
      apply (well_behaved_result expr var (lookup_well_behaved _ _ L) R).
  - intros r H. unfold differentiate_with_rules in H.
    destruct (apply_derivative_rule sp expr var "auto") as [[r'|]|] eqn:A;
      cbn [bind] in H; try discriminate.
    destruct (applied r') eqn:Ap.
    + injection H as <-. auto.
    + destruct (parse_expr sp expr (bind_symbol (get_symbol var)));
        cbn [bind] in H; [|discriminate].
      injection H as <-. apply applied_invariant; discriminate.
Qed.

Lemma rule_result_invariant_witness :
  apply_derivative_rule Toy.engine (Text "x^x") (VarStr "x") "auto" =
    Ok (Some (not_applicable (Pow X X) "exponential_rule"
                "Not applicable: base a is not constant.")) /\
  RuleResult_invariant
    (not_applicable (Pow X X) "exponential_rule"
       "Not applicable: base a is not constant.").
Proof.
  assert (E : apply_derivative_rule Toy.engine (Text "x^x") (VarStr "x") "auto" =
              Ok (Some (not_applicable (Pow X X) "exponential_rule"
                          "Not applicable: base a is not constant.")))
    by (vm_compute; reflexivity).
  split; [exact E|].
  exact (proj1 (proj2 (rule_result_invariant Toy.engine (Text "x^x") (VarStr "x")))
           "auto" _ E).
Defined.

(** C2.  In auto mode the dispatcher tries the rules in the order
    power_rule, constant_multiple_rule, product_rule, chain_rule,
    exponential_rule and returns the result of the first one that applies:
    every rule before the returned one has declined, so the returned rule
    is never later than the first applicable one.  When none applies the
    result is the one of exponential_rule, the last rule, not applied and
    with the output equal to the input: nothing is differentiated. *)
Theorem auto_returns_first_applicable (sp : Engine) (expr : ExprArg)
    (var : VarArg) :
  ordered_rules =
    ["power_rule"; "constant_multiple_rule"; "product_rule"; "chain_rule";
     "exponential_rule"] /\
  match apply_derivative_rule sp expr var "auto" with
  | Ok (Some r) =>
      exists earlier later m,
        (ordered_rules = earlier ++ rule_name r :: later)%list /\
        lookup (rule_name r) (rule_map sp) = Some m /\
        m expr var = Ok r /\
        Forall (rule_declines sp expr var) earlier /\
        (forall name m' r',
            In name earlier -> lookup name (rule_map sp) = Some m' ->
            m' expr var = Ok r' -> applied r' = false) /\
        (applied r = true \/
         (later = [] /\ rule_name r = "exponential_rule" /\
          apply_exponential_derivative_rule sp expr var = Ok r /\
          applied r = false /\ output_expr r = input_expr r /\ steps r = []))
  | Ok None => False
  | Raise exn =>
      apply_power_rule_derivative sp expr var = Raise exn /\
      parsed sp expr var = Raise exn
  end.
Proof.
  split; [reflexivity|].
  pose proof (auto_mode_outcome sp expr var) as O.
  destruct (apply_derivative_rule sp expr var "auto") as [[r|]|exn]; auto.
  - destruct O as (pre & post & m & E & L & R & F & [A | [-> A]]).
    + exists pre, post, m. repeat split; auto.
      apply (declined_earlier F).
    + exists pre, [], m. repeat split; auto.
      { apply (declined_earlier F). }
      right.
      pose proof (ordered_rules_last _ _ E) as N.
      destruct (well_behaved_result expr var (lookup_well_behaved _ _ L) R)
        as (_ & (I & _) & _).
      destruct (I A) as [Out St].
      rewrite N in L. injection L as <-. repeat split; auto.
  - split; auto.
    apply (well_behaved_raise expr var (power_rule_well_behaved sp) O).
Qed.

Lemma auto_returns_first_applicable_witness :
  exists earlier later,
    (ordered_rules = earlier ++ "chain_rule" :: later)%list /\
    Forall (rule_declines Toy.engine (Text "sin(2*x)") (VarStr "x")) earlier.
Proof.
  assert (E : apply_derivative_rule Toy.engine (Text "sin(2*x)") (VarStr "x") "auto" =
              Ok (Some (mkRuleResult (sin two_x) (Mul [Integer 2; cos two_x]) true
                          "chain_rule" "Applied chain rule for sine."
                          ["Match pattern sin(g(x)).";
                           "Derivative: cos(g(x))*g'(x)."])))
    by (vm_compute; reflexivity).
  destruct (auto_returns_first_applicable Toy.engine
              (Text "sin(2*x)") (VarStr "x")) as [_ H].
  rewrite E in H. cbn [rule_name] in H.
  destruct H as (earlier & later & m & O & _ & _ & F & _).
  exists earlier, later. split; [exact O | exact F].
Defined.

(** C7.  [differentiate_with_rules] returns the auto-mode result unchanged
    when it is applied, and the symbolic fallback (rule name
    symbolic_fallback, applied, the simplified generic derivative, a fixed
    message, one step) otherwise; it never returns a result that is not
    applied.  So when every rule declines, as for [x^x], the result is the
    symbolic fallback. *)
Theorem differentiate_with_rules_never_declines (sp : Engine)
    (expr : ExprArg) (var : VarArg) :
  match apply_derivative_rule sp expr var "auto" with
  | Ok (Some r) =>
      if applied r then differentiate_with_rules sp expr var = Ok r
      else exists f,
          parsed sp expr var = Ok f /\
          differentiate_with_rules sp expr var =
            Ok (symbolic_fallback sp f (get_symbol var))
  | Ok None => False
  | Raise exn => differentiate_with_rules sp expr var = Raise exn
  end /\
  (forall r, differentiate_with_rules sp expr var = Ok r -> applied r = true) /\
  (Forall (fun entry : string * Matcher => declines (snd entry) expr var)
          (rule_map sp) ->
   exists f,
     parsed sp expr var = Ok f /\
     differentiate_with_rules sp expr var =
       Ok (symbolic_fallback sp f (get_symbol var))) /\
  (reads_x_pow_x sp ->
   differentiate_with_rules sp (Text "x^x") (VarStr "x") =
     Ok (symbolic_fallback sp (Pow (Symbol "x") (Symbol "x")) "x")).
Proof.
  assert (Main :
    match apply_derivative_rule sp expr var "auto" with
    | Ok (Some r) =>
        if applied r then differentiate_with_rules sp expr var = Ok r
        else exists f,
            parsed sp expr var = Ok f /\
            differentiate_with_rules sp expr var =
              Ok (symbolic_fallback sp f (get_symbol var))
    | Ok None => False
    | Raise exn => differentiate_with_rules sp expr var = Raise exn
    end).
  { pose proof (auto_mode_outcome sp expr var) as O.
    unfold differentiate_with_rules.
    destruct (apply_derivative_rule sp expr var "auto") as [[r|]|exn];
      cbn [bind]; auto.
    destruct O as (pre & post & m & _ & L & R & _).
    destruct (well_behaved_result expr var (lookup_well_behaved _ _ L) R)
      as (_ & _ & f & P).
    destruct (applied r); [reflexivity|].
    exists f. split; [exact P|]. unfold parsed in P. rewrite P. reflexivity. }
  split; [exact Main|]. split; [|split].
  - intros r H.
    destruct (apply_derivative_rule sp expr var "auto") as [[r'|]|exn];
      try contradiction.
    + destruct (applied r') eqn:A.
      * congruence.
      * destruct Main as (f & _ & E). rewrite E in H. injection H as <-.
        reflexivity.
    + congruence.
  - intros D.
    pose proof (auto_mode_outcome sp expr var) as O.
    destruct (apply_derivative_rule sp expr var "auto") as [[r|]|exn].
    + destruct (applied r) eqn:A; [exfalso|exact Main].
      destruct O as (_ & _ & m & _ & L & R & _).
      revert D L. unfold rule_map. cbn [lookup].
      intros D.
      repeat match goal with
      | |- context [String.eqb ?n ?lit] => destruct (String.eqb n lit)
      end; intros L; try discriminate; injection L as <-;
      repeat match goal with
      | D : Forall _ (_ :: _) |- _ => inversion D as [|? ? [? [? ?]] ?]; clear D; subst
      end; cbn [snd] in *; congruence.
    + contradiction.
    + exfalso. inversion D as [|? ? [r [R _]] _]. subst. cbn [snd] in R.
      pose proof (well_behaved_raise expr var (power_rule_well_behaved sp) O).
      congruence.
  - clear Main. intros (P & H & E & NP & FT & AI & S).
    unfold differentiate_with_rules, apply_derivative_rule.
    cbn [String.eqb Ascii.eqb Bool.eqb auto_loop ordered_rules].
    unfold getitem. cbn [lookup rule_map String.eqb Ascii.eqb Bool.eqb bind].
    unfold apply_power_rule_derivative, apply_constant_multiple_derivative,
      apply_product_rule, apply_chain_rule, apply_exponential_derivative_rule,
      parse_expr, bind_symbol, or_empty.
    cbn [get_symbol]. rewrite P. cbn [bind].
    rewrite E, NP, FT, AI, S. cbn [negb expr_eqb Z.eqb bind applied not_applicable].
    rewrite H. cbn. reflexivity.
Qed.

Lemma differentiate_with_rules_never_declines_witness :
  reads_x_pow_x Toy.engine /\
  differentiate_with_rules Toy.engine (Text "x^x") (VarStr "x") =
    Ok (symbolic_fallback Toy.engine (Pow (Symbol "x") (Symbol "x")) "x").
Proof.
  assert (R : reads_x_pow_x Toy.engine) by by_running.
  split; [exact R|].
  exact (proj2 (proj2 (proj2 (differentiate_with_rules_never_declines
                                Toy.engine (Text "x^x") (VarStr "x")))) R).
Defined.

(** C3.  exponential_rule works on the parse as it is, without
    simplification: it applies exactly when the parsed expression is a
    power whose exponent is the variable itself and whose base is free of
    the variable, and the output is then the simplified product of the
    expression and the logarithm of the base.  [2^(3*x)] is declined, its
    exponent not being the variable. *)
Theorem exponential_rule_bare_variable (sp : Engine) :
  (forall expr var e,
      parsed sp expr var = Ok e ->
      let x := get_symbol var in
      exists r,
        apply_exponential_derivative_rule sp expr var = Ok r /\
        input_expr r = e /\
        (applied r = true <->
         exists a, e = Pow a (Symbol x) /\ has sp a x = false) /\
        (forall a, e = Pow a (Symbol x) -> has sp a x = false ->
                   output_expr r = simplify sp (mul sp e (call_log sp a)))) /\
  (reads_two_pow_three_x sp ->
   apply_exponential_derivative_rule sp (Text "2^(3*x)") (VarStr "x") =
     Ok (not_applicable two_pow_three_x "exponential_rule"
           "Not applicable: exponent is not x.")).
Proof.
  split.
  - intros expr var e P x. unfold apply_exponential_derivative_rule.
    unfold parsed in P. rewrite P. cbn [bind]. fold x.
    destruct e as [ | | | | |a expo| | | | | ];
      try (eexists; split; [reflexivity|]; split; [reflexivity|];
           split; [split; [discriminate | intros (a & E & _); discriminate]
                  | intros a E; discriminate]).
    destruct (expr_eqb expo (Symbol x)) eqn:Q; cbn [negb].
    + apply expr_eqb_eq in Q. subst expo.
      destruct (has sp a x) eqn:H;
        (eexists; split; [reflexivity|]; split; [reflexivity|]; cbn; split).
      * split; [discriminate|]. intros (a' & E & H'). injection E as <-.
        congruence.
      * intros a' E H'. injection E as <-. congruence.
      * split; eauto.
      * intros a' E _. injection E as <-. reflexivity.
    + apply expr_eqb_neq in Q.
      eexists; split; [reflexivity|]; split; [reflexivity|]; cbn; split.
      * split; [discriminate|]. intros (a' & E & _). injection E as _ E.
        contradiction.
      * intros a' E. injection E as _ E. contradiction.
  - intros P. unfold apply_exponential_derivative_rule, parse_expr.
    cbn [get_symbol bind_symbol or_empty].
    unfold reads_two_pow_three_x, X in P. rewrite P. reflexivity.
Qed.

Lemma exponential_rule_bare_variable_witness :
  reads_two_pow_three_x Toy.engine /\
  apply_exponential_derivative_rule Toy.engine (Text "2^(3*x)") (VarStr "x") =
    Ok (not_applicable two_pow_three_x "exponential_rule"
          "Not applicable: exponent is not x.") /\
  exists r,
    apply_exponential_derivative_rule Toy.engine (Text "2^x") (VarStr "x") = Ok r /\
    (applied r = true <->
     exists a, Pow (Integer 2) X = Pow a (Symbol "x") /\
               has Toy.engine a "x" = false).
Proof.
  assert (R : reads_two_pow_three_x Toy.engine) by reflexivity.
  split; [exact R|]. split.
  - exact (proj2 (exponential_rule_bare_variable Toy.engine) R).
  - destruct (proj1 (exponential_rule_bare_variable Toy.engine)
                (Text "2^x") (VarStr "x") (Pow (Integer 2) X) eq_refl)
      as (r & E & _ & A & _).
    exists r. split; [exact E | exact A].
Defined.

(** C4.  chain_rule applies exactly when the simplified expression has one
    of the five outer forms [g^n] ([n] free of the variable and not 1),
    [exp(g)], [ln(g)], [sin(g)], [cos(g)], with [g] depending on the
    variable, and its output is the simplified closed form of that case:
    [n*g^(n-1)*g'], [exp(g)*g'], [g'/g], [cos(g)*g'], [-sin(g)*g'].  On
    [sin(2*x)] it applies, with output [2*cos(2*x)]. *)
Theorem chain_rule_five_forms (sp : Engine) :
  (forall expr var f,
      parsed sp expr var = Ok f ->
      let x := get_symbol var in
      let e := simplify sp f in
      exists r,
        apply_chain_rule sp expr var = Ok r /\
        input_expr r = e /\
        (applied r = true <-> exists d, ChainForm sp x e d) /\
        (forall d, ChainForm sp x e d -> output_expr r = simplify sp d)) /\
  (reads_sin_two_x sp ->
   exists r,
     apply_chain_rule sp (Text "sin(2*x)") (VarStr "x") = Ok r /\
     applied r = true /\ rule_name r = "chain_rule" /\
     output_expr r = Mul [Integer 2; cos two_x]).
Proof.
  split.
  - intros expr var f P. cbv zeta. unfold apply_chain_rule.
    unfold parsed in P. rewrite P. clear P. cbn [bind].
    generalize (get_symbol var) as x. intros x.
    generalize (simplify sp f) as e. intros e.
    destruct e as [ | | | | |g n|g|g [b|]|g|g| ]; cbn;
      try chain_case;
      try (destruct (has sp g x) eqn:Hg; cbn; try chain_case).
    destruct (has sp n x) eqn:Hn; cbn; try chain_case.
    destruct (expr_eqb n (Integer 1)) eqn:Q; cbn;
      [apply expr_eqb_eq in Q | apply expr_eqb_neq in Q]; chain_case.
  - intros (P & S & H & D & C & M & S').
    unfold apply_chain_rule, parse_expr.
    cbn [get_symbol bind_symbol or_empty]. unfold X in *. rewrite P.
    cbn [bind]. rewrite S. cbn. unfold two_x, X in *. rewrite H. cbn.
    rewrite D, C, M, S'. eexists. split; [reflexivity|]. auto.
Qed.

Lemma chain_rule_five_forms_witness :
  reads_sin_two_x Toy.engine /\
  exists r,
    apply_chain_rule Toy.engine (Text "sin(2*x)") (VarStr "x") = Ok r /\
    applied r = true /\ rule_name r = "chain_rule" /\
    output_expr r = Mul [Integer 2; cos two_x].
Proof.
  assert (R : reads_sin_two_x Toy.engine) by by_running.
  split; [exact R|].
  exact (proj2 (chain_rule_five_forms Toy.engine) R).
Defined.

(** C5.  power_rule applies exactly when the expanded expression is a
    polynomial in the variable, and its output is then the simplified
    derivative of that polynomial.  On [x^3 + x^2 + 8] it applies, with an
    output equal to [3*x^2 + 2*x] in the sense of the test suite (the
    difference simplifies to 0; the output itself is whatever form
    simplification gives the derivative); on [sin(x) + x^2] it does not,
    and the result is still named power_rule. *)
Theorem power_rule_polynomial (sp : Engine) :
  (forall expr var f0,
      parsed sp expr var = Ok f0 ->
      let x := get_symbol var in
      let f := expand sp f0 in
      exists r,
        apply_power_rule_derivative sp expr var = Ok r /\
        input_expr r = f /\
        rule_name r = "power_rule" /\
        applied r = is_polynomial sp f x /\
        (is_polynomial sp f x = true ->
         output_expr r = simplify sp (diff sp f x))) /\
  (reads_cubic sp ->
   exists r,
     apply_power_rule_derivative sp (Text "x^3 + x^2 + 8") (VarStr "x") = Ok r /\
     applied r = true /\ rule_name r = "power_rule" /\
     output_expr r = simplify sp (diff sp cubic "x") /\
     equal_after_simplification sp (output_expr r)
       (expected_cubic_derivative sp)) /\
  (reads_sine_plus_square sp ->
   exists r,
     apply_power_rule_derivative sp (Text "sin(x) + x^2") (VarStr "x") = Ok r /\
     applied r = false /\ rule_name r = "power_rule").
Proof.
  split; [|split].
  - intros expr var f0 P. cbv zeta. unfold apply_power_rule_derivative.
    unfold parsed in P. rewrite P. cbn [bind].
    destruct (is_polynomial sp (expand sp f0) (get_symbol var)); cbn [negb];
      eexists; (split; [reflexivity|]); cbn; repeat split; auto; discriminate.
  - intros (P & E & Pol & D & S).
    unfold apply_power_rule_derivative, parse_expr.
    cbn [get_symbol bind_symbol or_empty]. unfold X in P. rewrite P.
    cbn [bind]. rewrite E, Pol. cbn [negb].
    eexists. split; [reflexivity|]. cbn. rewrite D. auto.
  - intros (P & E & Pol).
    unfold apply_power_rule_derivative, parse_expr.
    cbn [get_symbol bind_symbol or_empty]. unfold X in P. rewrite P.
    cbn [bind]. rewrite E, Pol. cbn [negb].
    eexists. split; [reflexivity|]. auto.
Qed.

Lemma power_rule_polynomial_witness :
  (reads_cubic cancelling_engine /\
   exists r,
     apply_power_rule_derivative cancelling_engine (Text "x^3 + x^2 + 8")
       (VarStr "x") = Ok r /\
     applied r = true /\ rule_name r = "power_rule" /\
     output_expr r = simplify cancelling_engine
                       (diff cancelling_engine cubic "x") /\
     equal_after_simplification cancelling_engine (output_expr r)
       (expected_cubic_derivative cancelling_engine)) /\
  (reads_sine_plus_square cancelling_engine /\
   exists r,
     apply_power_rule_derivative cancelling_engine (Text "sin(x) + x^2")
       (VarStr "x") = Ok r /\
     applied r = false /\ rule_name r = "power_rule").
Proof.
  assert (R1 : reads_cubic cancelling_engine) by by_running.
  assert (R2 : reads_sine_plus_square cancelling_engine) by by_running.
  destruct (power_rule_polynomial cancelling_engine) as (_ & T1 & T2).
  split; (split; [assumption|]); auto.
Defined.

(** C6.  product_rule applies exactly when the simplified expression is a
    product of which, the variable-independent factor [c] set apart,
    exactly two factors depend on the variable; the output is then
    [c*(f1*f2' + f1'*f2)] simplified.  [(x+1)*(x+2)*(x+3)] has three such
    factors and is declined. *)
Theorem product_rule_two_factors (sp : Engine) :
  (forall expr var f,
      parsed sp expr var = Ok f ->
      let x := get_symbol var in
      let e := simplify sp f in
      exists r,
        apply_product_rule sp expr var = Ok r /\
        input_expr r = e /\
        (applied r = true <->
         (exists l, e = Mul l) /\
         List.length (dependent_factors sp e x) = 2%nat) /\
        (forall l c rest f1 f2,
            e = Mul l ->
            as_independent sp e x = (c, rest) ->
            dependent_factors sp e x = [f1; f2] ->
            output_expr r =
              simplify sp
                (mul sp c (add sp (mul sp f1 (diff sp f2 x))
                                  (mul sp (diff sp f1 x) f2))))) /\
  (reads_triple_product sp ->
   List.length (dependent_factors sp triple_product "x") = 3%nat /\
   apply_product_rule sp (Text "(x+1)*(x+2)*(x+3)") (VarStr "x") =
     Ok (not_applicable triple_product "product_rule"
           "Not applicable: product rule requires exactly two x-dependent factors (simple mode).")).
Proof.
  split.
  - intros expr var f P. cbv zeta. unfold apply_product_rule.
    unfold parsed in P. rewrite P. clear P. cbn [bind].
    generalize (get_symbol var) as x. intros x.
    generalize (simplify sp f) as e. intros e.
    destruct e as [ | | | |l| | | | | | ];
      try (eexists; split; [reflexivity|]; split; [reflexivity|]; cbn; split;
           [ split; [discriminate | intros [[l E] _]; discriminate]
           | intros l c rest f1 f2 E; discriminate ]).
    unfold dependent_factors, remaining_factors.
    destruct (as_independent sp (Mul l) x) as [c rest]. cbn [snd].
    match goal with |- context [filter ?p ?k] => set (nonconst := filter p k) end.
    destruct (List.length nonconst =? 2)%nat eqn:L; cbn [negb].
    + destruct (filter_length_two _ L) as (a & b & N). rewrite N.
      eexists; split; [reflexivity|]; split; [reflexivity|]; cbn; split.
      * split; eauto.
      * intros l' c' rest' f1 f2 _ I F. injection I as <- <-.
        injection F as <- <-. reflexivity.
    + apply Nat.eqb_neq in L.
      eexists; split; [reflexivity|]; split; [reflexivity|]; cbn; split.
      * split; [discriminate | intros [_ L']; contradiction].
      * intros l' c' rest' f1 f2 _ I F. injection I as <- <-.
        rewrite F in L. contradiction L. reflexivity.
  - intros (P & S & I & H1 & H2 & H3).
    unfold dependent_factors, apply_product_rule, parse_expr.
    cbn [get_symbol bind_symbol or_empty]. unfold X in P. rewrite P.
    cbn [bind]. rewrite S. unfold triple_product in *. rewrite I.
    cbn [snd remaining_factors filter]. unfold X in *.
    rewrite H1, H2, H3. split; reflexivity.
Qed.

Lemma product_rule_two_factors_witness :
  reads_triple_product Toy.engine /\
  List.length (dependent_factors Toy.engine triple_product "x") = 3%nat /\
  apply_product_rule Toy.engine (Text "(x+1)*(x+2)*(x+3)") (VarStr "x") =
    Ok (not_applicable triple_product "product_rule"
          "Not applicable: product rule requires exactly two x-dependent factors (simple mode).").
Proof.
  assert (R : reads_triple_product Toy.engine) by by_running.
  split; [exact R|].
  exact (proj2 (product_rule_two_factors Toy.engine) R).
Defined.

(** The function on every value of the parser is the function of the
    library wherever the parser returns an expression or raises. *)
Lemma power_rule_any_on_expressions (sp : Engine)
    (parse_any : string -> list (string * Expr) -> option Parsed)
    (expand_other : NonExpr -> option NonExpr) (expr : ExprArg) (var : VarArg) :
  (forall text, expr = Text text ->
     parse_any text [(get_symbol var, Symbol (get_symbol var))] =
       option_map AnExpr
         (parse sp text [(get_symbol var, Symbol (get_symbol var))])) ->
  apply_power_rule_derivative_any sp parse_any expand_other expr var =
    apply_power_rule_derivative sp expr var.
Proof.
  intros H.
  unfold apply_power_rule_derivative_any, apply_power_rule_derivative,
    parse_expr_any, parse_expr.
  destruct expr as [text|e]; cbn [bind_symbol or_empty].
  - rewrite (H text eq_refl).
    destruct (parse sp text [(get_symbol var, Symbol (get_symbol var))]);
      cbn; [|reflexivity].
    destruct (is_polynomial sp (expand sp e) (get_symbol var)); reflexivity.
  - cbn. destruct (is_polynomial sp (expand sp e) (get_symbol var));
      reflexivity.
Qed.

(** C8.  The matchers do not raise only when the text fails to parse:
    when the parser returns a value that is not an expression, as for
    [(1, 2)], [parse_expr] raises nothing, and power_rule then raises an
    [AttributeError] (the value has no [expand], or no [is_polynomial]),
    which is not the "Invalid expression" error. *)
Theorem power_rule_on_non_expression (sp : Engine)
    (parse_any : string -> list (string * Expr) -> option Parsed)
    (expand_other : NonExpr -> option NonExpr) (text : string) (var : VarArg)
    (o : NonExpr) :
  parse_any text [(get_symbol var, Symbol (get_symbol var))]
    = Some (NotAnExpr o) ->
  parse_expr_any sp parse_any (Text text) (bind_symbol (get_symbol var))
    = Ok (NotAnExpr o) /\
  apply_power_rule_derivative_any sp parse_any expand_other (Text text) var
    = Raise AttributeError /\
  (forall quoted,
      apply_power_rule_derivative_any sp parse_any expand_other (Text text) var
      <> Raise (ValueError (invalid_expression_message quoted))).
Proof.
  intros P.
  assert (R : apply_power_rule_derivative_any sp parse_any expand_other
                (Text text) var = Raise AttributeError).
  { unfold apply_power_rule_derivative_any, parse_expr_any.
    cbn [bind_symbol or_empty]. rewrite P. cbn [bind expand_any].
    destruct (expand_other o); reflexivity. }
  split; [|split].
  - unfold parse_expr_any. cbn [bind_symbol or_empty]. rewrite P. reflexivity.
  - exact R.
  - intros quoted. rewrite R. discriminate.
Qed.

Lemma power_rule_on_non_expression_witness :
  toy_parse_any "(1, 2)" [("x", Symbol "x")] =
    Some (NotAnExpr (PyTuple [Integer 1; Integer 2])) /\
  apply_power_rule_derivative_any Toy.engine toy_parse_any toy_expand_other
    (Text "(1, 2)") (VarStr "x") = Raise AttributeError.
Proof.
  assert (P : toy_parse_any "(1, 2)" [("x", Symbol "x")] =
              Some (NotAnExpr (PyTuple [Integer 1; Integer 2])))
    by (vm_compute; reflexivity).
  split; [exact P|].
  exact (proj1 (proj2 (@power_rule_on_non_expression Toy.engine toy_parse_any
                         toy_expand_other "(1, 2)" (VarStr "x") _ P))).
Defined.

(** C9.  A rule name outside auto and the five rule names makes the
    dispatcher raise, whatever the expression: a [ValueError] (the
    UnknownRuleError of the specification) whose message starts with
    "Unknown rule", quotes the name and lists the allowed names. *)
Theorem unknown_rule_raises (sp : Engine) (expr : ExprArg) (var : VarArg)
    (rule : string) :
  ~ In rule allowed_rules ->
  apply_derivative_rule sp expr var rule =
    Raise (ValueError (unknown_rule_message sp rule)) /\
  unknown_rule_message sp rule =
    "Unknown rule " ++ repr sp rule ++
    ". Allowed values: auto, power_rule, constant_multiple_rule, product_rule, chain_rule, exponential_rule." /\
  String.prefix "Unknown rule" (unknown_rule_message sp rule) = true /\
  mentions (unknown_rule_message sp rule) (repr sp rule) /\
  mentions (unknown_rule_message sp rule) (join ", " allowed_rules).
Proof.
  intros N. split; [|split; [|split; [|split]]].
  - unfold apply_derivative_rule, rule_map. cbn [lookup].
    unfold allowed_rules in N. cbn [In] in N.
    repeat match goal with
    | |- context [String.eqb rule ?lit] =>
        destruct (String.eqb_spec rule lit) as [E|_]; [exfalso; auto 10|]
    end.
    reflexivity.
  - reflexivity.
  - reflexivity.
  - exists "Unknown rule ",
      ". Allowed values: auto, power_rule, constant_multiple_rule, product_rule, chain_rule, exponential_rule.".
    reflexivity.
  - exists ("Unknown rule " ++ repr sp rule ++ ". Allowed values: "), ".".
    unfold unknown_rule_message. rewrite !string_append_assoc.
    reflexivity.
Qed.

Lemma unknown_rule_raises_witness :
  ~ In "bad_rule" allowed_rules /\
  apply_derivative_rule Toy.engine (Text "x^2") (VarStr "x") "bad_rule" =
    Raise (ValueError
             "Unknown rule 'bad_rule'. Allowed values: auto, power_rule, constant_multiple_rule, product_rule, chain_rule, exponential_rule.").
Proof.
  assert (N : ~ In "bad_rule" allowed_rules).
  { cbn. intros H. repeat (destruct H as [H|H]; [discriminate H|]). exact H. }
  split; [exact N|].
  exact (proj1 (unknown_rule_raises Toy.engine (Text "x^2") (VarStr "x") N)).
Defined.

Lemma toy_variable_free_laws : variable_free_laws Toy.engine.
Proof.
  repeat split; cbn.
  - auto.
  - intros e x H. unfold Toy.is_polynomial. rewrite H. reflexivity.
  - intros e x H. unfold Toy.diff. rewrite H. reflexivity.
Qed.

(** C10.  For a collaborator that treats variable-free expressions as
    SymPy does ([variable_free_laws]), an expression in which the variable
    does not occur, transcendental or not, is a polynomial for power_rule:
    the rule applies with output 0, and auto mode returns this result of
    power_rule, the first rule, without trying any other. *)
Theorem variable_free_is_power_rule (sp : Engine) (expr : ExprArg)
    (var : VarArg) (f : Expr) :
  variable_free_laws sp ->
  parsed sp expr var = Ok f ->
  has sp f (get_symbol var) = false ->
  let r :=
    {| input_expr := expand sp f;
       output_expr := Integer 0;
       applied := true;
       rule_name := "power_rule";
       message := "Applied power rule term-by-term (polynomial).";
       steps := ["Recognize polynomial in x."; "Differentiate each term."] |} in
  apply_power_rule_derivative sp expr var = Ok r /\
  apply_derivative_rule sp expr var "auto" = Ok (Some r).
Proof.
  intros (Lexp & Lpol & Ldiff & Lzero) P H r.
  assert (R : apply_power_rule_derivative sp expr var = Ok r).
  { unfold apply_power_rule_derivative. unfold parsed in P. rewrite P.
    cbn [bind]. rewrite (Lpol _ _ (Lexp _ _ H)). cbn [negb].
    rewrite (Ldiff _ _ (Lexp _ _ H)), Lzero. reflexivity. }
  split; [exact R|].
  unfold apply_derivative_rule.
  cbn [String.eqb Ascii.eqb Bool.eqb auto_loop ordered_rules].
  unfold getitem. cbn [lookup rule_map String.eqb Ascii.eqb Bool.eqb bind].
  rewrite R. reflexivity.
Qed.

Lemma variable_free_is_power_rule_witness :
  parsed Toy.engine (Text "sin(y)") (VarStr "x") = Ok (sin (Symbol "y")) /\
  has Toy.engine (sin (Symbol "y")) "x" = false /\
  apply_derivative_rule Toy.engine (Text "sin(y)") (VarStr "x") "auto" =
    Ok (Some {| input_expr := sin (Symbol "y");
                output_expr := Integer 0;
                applied := true;
                rule_name := "power_rule";
                message := "Applied power rule term-by-term (polynomial).";
                steps := ["Recognize polynomial in x.";
                          "Differentiate each term."] |}).
Proof.
  assert (P : parsed Toy.engine (Text "sin(y)") (VarStr "x")
              = Ok (sin (Symbol "y"))) by (vm_compute; reflexivity).
  assert (H : has Toy.engine (sin (Symbol "y")) (get_symbol (VarStr "x"))
              = false) by (vm_compute; reflexivity).
  split; [exact P|]. split; [exact H|].
  exact (proj2 (variable_free_is_power_rule (Text "sin(y)") (VarStr "x")
                  toy_variable_free_laws P H)).
Defined.

(* ===================================================================== *)
(** ** The remaining tests of the suite, on the executable engine *)
(* ===================================================================== *)

Example test_constant_multiple_rule_applicable :
  apply_constant_multiple_derivative Toy.engine (Text "5*(x^2 + 1)") (VarStr "x") =
    Ok {| input_expr := Mul [Integer 5; Add [Pow X (Integer 2); Integer 1]];
          output_expr := Mul [Integer 10; X];
          applied := true;
          rule_name := "constant_multiple_rule";
          message := "Applied constant multiple rule for derivatives.";
          steps := ["Factor out constant c = 5.";
                    "Differentiate the remaining part."] |}.
Proof. vm_compute. reflexivity. Qed.

Example test_apply_derivative_rule_specific :
  exists r,
    apply_derivative_rule Toy.engine (Text "(x+1)*(x+2)") (VarStr "x")
      "product_rule" = Ok (Some r) /\
    applied r = true /\ rule_name r = "product_rule".
Proof. eexists. split; [vm_compute; reflexivity|]. split; reflexivity. Qed.

Example test_apply_derivative_rule_auto :
  exists r,
    apply_derivative_rule Toy.engine (Text "(3*x + 1)^5") (VarStr "x") "auto"
      = Ok (Some r) /\
    applied r = true /\ In (rule_name r) ordered_rules.
Proof.
  eexists. split; [vm_compute; reflexivity|]. split; [reflexivity|].
  cbn. auto.
Qed.

Example demo_function_eval :
  evaluate_function Toy.engine toy_subs (Text "(x^2 + 1)*(x + 3)") 2%Z (VarStr "x")
    = Ok (Integer 25) /\
  evaluate_derivative_at Toy.engine toy_subs (Text "x^3 + x^2 + 8") 2%Z (VarStr "x")
    = Ok (Integer 16).
Proof. split; vm_compute; reflexivity. Qed.

(* ===================================================================== *)
(** ** Further properties of the matchers and the dispatcher *)
(* ===================================================================== *)

Section Dispatch.
Variable sp : Engine.

Lemma lookup_In (name : string) (m : Matcher) :
  lookup name (rule_map sp) = Some m -> In (name, m) (rule_map sp).
Proof.
  unfold rule_map. cbn [lookup].
  repeat match goal with
  | |- context [String.eqb name ?lit] =>
      destruct (String.eqb_spec name lit) as [->|_]
  end; intros H; try discriminate; injection H as <-; cbn; auto 10.
Qed.

Lemma In_lookup (name : string) (m : Matcher) :
  In (name, m) (rule_map sp) -> lookup name (rule_map sp) = Some m.
Proof.
  unfold rule_map. cbn [In].
  intros H.
  repeat (destruct H as [H|H]; [injection H as <- <-; reflexivity|]).
  contradiction.
Qed.

Lemma lookup_ordered (name : string) (m : Matcher) :
  lookup name (rule_map sp) = Some m ->
  In name ordered_rules /\ String.eqb name "auto" = false.
Proof.
  unfold rule_map. cbn [lookup].
  repeat match goal with
  | |- context [String.eqb name ?lit] =>
      destruct (String.eqb_spec name lit) as [->|_]
  end; intros H; try discriminate; split; cbn; auto 10.
Qed.

Lemma ordered_lookup (name : string) :
  In name ordered_rules -> exists m, lookup name (rule_map sp) = Some m.
Proof.
  pose proof (ordered_rules_registered sp) as R. rewrite Forall_forall in R.
  apply R.
Qed.

(** A named rule is dispatched to its matcher. *)
Lemma named_dispatch (expr : ExprArg) (var : VarArg) (name : string)
    (m : Matcher) :
  lookup name (rule_map sp) = Some m ->
  apply_derivative_rule sp expr var name = (r <- m expr var ;; Ok (Some r)).
Proof.
  intros L. unfold apply_derivative_rule.
  destruct (lookup_ordered _ L) as [_ ->]. rewrite L. reflexivity.
Qed.

(** The outcome of the dispatcher for an allowed rule name. *)
Lemma allowed_rule_outcome (expr : ExprArg) (var : VarArg) (rule : string) :
  In rule allowed_rules ->
  match parsed sp expr var with
  | Ok _ => exists r, apply_derivative_rule sp expr var rule = Ok (Some r)
  | Raise exn => apply_derivative_rule sp expr var rule = Raise exn
  end.
Proof.
  intros [<-|I].
  - pose proof (auto_mode_outcome sp expr var) as O.
    destruct (apply_derivative_rule sp expr var "auto") as [[r|]|exn'].
    + destruct O as (_ & _ & m & _ & L & R & _).
      destruct (well_behaved_result expr var (lookup_well_behaved _ _ L) R)
        as (_ & _ & f & P).
      rewrite P. eauto.
    + contradiction.
    + rewrite O. reflexivity.
  - destruct (ordered_lookup I) as [m L].
    rewrite (named_dispatch expr var _ L).
    pose proof (lookup_well_behaved _ _ L expr var) as W.
    destruct (parsed sp expr var) as [f|exn].
    + destruct W as (r & -> & _). cbn. eauto.
    + rewrite W. reflexivity.
Qed.

Lemma differentiate_outcome (expr : ExprArg) (var : VarArg) :
  match parsed sp expr var with
  | Ok _ => exists r, differentiate_with_rules sp expr var = Ok r /\
                      applied r = true
  | Raise exn => differentiate_with_rules sp expr var = Raise exn
  end.
Proof.
  pose proof (@allowed_rule_outcome expr var "auto" (or_introl eq_refl)) as O.
  unfold differentiate_with_rules.
  destruct (parsed sp expr var) as [f|exn] eqn:P.
  - destruct O as [r ->]. cbn [bind].
    destruct (applied r) eqn:A; [eauto|].
    unfold parsed in P. rewrite P. cbn. eauto.
  - rewrite O. reflexivity.
Qed.

End Dispatch.

(** X1.  constant_multiple_rule sets apart the variable-independent factor
    [c] of the factored expression: when [c] is 1 the rule declines, and
    otherwise it applies with output [c * diff(rest)] simplified and a
    first step that prints [c]. *)
Theorem constant_multiple_rule_factor (sp : Engine) (expr : ExprArg)
    (var : VarArg) (f : Expr) :
  parsed sp expr var = Ok f ->
  let x := get_symbol var in
  let f_s := factor_terms sp f in
  let c := fst (as_independent sp f_s x) in
  let rest := snd (as_independent sp f_s x) in
  (c = Integer 1 ->
   apply_constant_multiple_derivative sp expr var =
     Ok (not_applicable f_s "constant_multiple_rule"
           "Not applicable: no constant multiple factor found.")) /\
  (c <> Integer 1 ->
   apply_constant_multiple_derivative sp expr var =
     Ok {| input_expr := f_s;
           output_expr := simplify sp (mul sp c (diff sp rest x));
           applied := true;
           rule_name := "constant_multiple_rule";
           message := "Applied constant multiple rule for derivatives.";
           steps := ["Factor out constant c = " ++ str sp c ++ ".";
                     "Differentiate the remaining part."] |}).
Proof.
  intros P. cbv zeta. unfold apply_constant_multiple_derivative.
  unfold parsed in P. rewrite P. cbn [bind].
  destruct (as_independent sp (factor_terms sp f) (get_symbol var)) as [c rest].
  cbn [fst snd].
  destruct (expr_eqb c (Integer 1)) eqn:Q.
  - apply expr_eqb_eq in Q. split; [reflexivity | contradiction].
  - apply expr_eqb_neq in Q. split; [contradiction | reflexivity].
Qed.

Lemma constant_multiple_rule_factor_witness :
  parsed Toy.engine (Text "5*(x^2 + 1)") (VarStr "x") =
    Ok (Mul [Integer 5; Add [Pow X (Integer 2); Integer 1]]) /\
  exists r,
    apply_constant_multiple_derivative Toy.engine (Text "5*(x^2 + 1)")
      (VarStr "x") = Ok r /\
    applied r = true /\ output_expr r = Mul [Integer 10; X] /\
    steps r = ["Factor out constant c = 5.";
               "Differentiate the remaining part."].
Proof.
  assert (P : parsed Toy.engine (Text "5*(x^2 + 1)") (VarStr "x") =
              Ok (Mul [Integer 5; Add [Pow X (Integer 2); Integer 1]]))
    by (vm_compute; reflexivity).
  split; [exact P|].
  destruct (@constant_multiple_rule_factor Toy.engine _ _ _ P)
    as [_ H].
  eexists. split.
  - apply H. vm_compute. discriminate.
  - vm_compute. auto.
Defined.

(** X2.  With the name of a rule, the dispatcher runs exactly that matcher
    and hands back what it returns or raises; the result bears the name
    that was asked for, applied or not. *)
Theorem named_rule_runs_its_matcher (sp : Engine) (expr : ExprArg)
    (var : VarArg) :
  Forall (fun entry : string * Matcher =>
            apply_derivative_rule sp expr var (fst entry) =
              (r <- snd entry expr var ;; Ok (Some r)) /\
            (forall r,
                apply_derivative_rule sp expr var (fst entry) = Ok (Some r) ->
                rule_name r = fst entry))
         (rule_map sp).
Proof.
  apply Forall_forall. intros [name m] I. cbn [fst snd].
  apply In_lookup in I.
  rewrite (named_dispatch sp expr var _ I). split; [reflexivity|].
  intros r H. destruct (m expr var) as [r'|] eqn:R; [|discriminate].
  injection H as ->.
  apply (well_behaved_result expr var (lookup_well_behaved _ _ I) R).
Qed.

(** X3.  A text the parser rejects gets the same "Invalid expression"
    error from every entry point: from each matcher, from the dispatcher
    under every allowed rule name, from [differentiate_with_rules] and from
    the two evaluation functions. *)
Theorem parse_error_propagates (sp : Engine) (Value : Type)
    (subs : Expr -> string -> Value -> Expr) (text : string) (var : VarArg) :
  parse sp text [(get_symbol var, Symbol (get_symbol var))] = None ->
  let exn := ValueError (invalid_expression_message (repr sp text)) in
  Forall (fun entry : string * Matcher =>
            snd entry (Text text) var = Raise exn)
         (rule_map sp) /\
  (forall rule,
      In rule allowed_rules ->
      apply_derivative_rule sp (Text text) var rule = Raise exn) /\
  differentiate_with_rules sp (Text text) var = Raise exn /\
  (forall v,
      evaluate_function sp subs (Text text) v var = Raise exn /\
      evaluate_derivative_at sp subs (Text text) v var = Raise exn).
Proof.
  intros N exn.
  assert (P : parsed sp (Text text) var = Raise exn).
  { unfold parsed, parse_expr. cbn [bind_symbol or_empty]. rewrite N.
    reflexivity. }
  assert (D : differentiate_with_rules sp (Text text) var = Raise exn).
  { pose proof (differentiate_outcome sp (Text text) var) as O.
    rewrite P in O. exact O. }
  split; [|split; [|split]].
  - pose proof (rule_map_well_behaved sp) as W.
    induction W as [|[name m] l W _ IH]; constructor; auto.
    cbn [snd]. apply (well_behaved_raise (Text text) var W P).
  - intros rule I.
    pose proof (@allowed_rule_outcome sp (Text text) var rule I) as O.
    rewrite P in O. exact O.
  - exact D.
  - intros v. split.
    + unfold evaluate_function. unfold parsed in P. rewrite P. reflexivity.
    + unfold evaluate_derivative_at. rewrite D. reflexivity.
Qed.

Lemma parse_error_propagates_witness :
  parse Toy.engine "x**" [("x", Symbol "x")] = None /\
  apply_derivative_rule Toy.engine (Text "x**") (VarStr "x") "chain_rule" =
    Raise (ValueError
             "Invalid expression: 'x**'. Please provide a valid math expression in x.") /\
  evaluate_derivative_at Toy.engine toy_subs (Text "x**") 2%Z (VarStr "x") =
    Raise (ValueError
             "Invalid expression: 'x**'. Please provide a valid math expression in x.").
Proof.
  assert (N : parse Toy.engine "x**" [("x", Symbol "x")] = None)
    by (vm_compute; reflexivity).
  split; [exact N|].
  destruct (@parse_error_propagates Toy.engine Z toy_subs "x**" (VarStr "x") N)
    as (_ & Hd & _ & He).
  split.
  - apply Hd. cbn. auto 10.
  - apply (He 2%Z).
Defined.

(** X4.  The dispatcher raises the "Unknown rule" error exactly for the
    names outside auto and the five rule names: an allowed name never gets
    it, whatever the expression. *)
Theorem unknown_rule_error_iff (sp : Engine) (expr : ExprArg) (var : VarArg)
    (rule : string) :
  apply_derivative_rule sp expr var rule =
    Raise (ValueError (unknown_rule_message sp rule)) <->
  ~ In rule allowed_rules.
Proof.
  split.
  - intros H I.
    pose proof (@allowed_rule_outcome sp expr var rule I) as O.
    destruct (parsed sp expr var) as [f|exn] eqn:P.
    + destruct O as [r O]. congruence.
    + unfold parsed in P. apply parse_expr_raise in P.
      destruct P as (s & _ & _ & ->). rewrite O in H. discriminate H.
  - intros N. unfold apply_derivative_rule, rule_map. cbn [lookup].
    unfold allowed_rules in N. cbn [In] in N.
    repeat match goal with
    | |- context [String.eqb rule ?lit] =>
        destruct (String.eqb_spec rule lit) as [E|_]; [exfalso; auto 10|]
    end.
    reflexivity.
Qed.

Section AutoMode.
Variable sp : Engine.
Variable expr : ExprArg.
Variable var : VarArg.

Lemma declines_by_name_or_entry :
  Forall (rule_declines sp expr var) ordered_rules <->
  Forall (fun entry : string * Matcher => declines (snd entry) expr var)
         (rule_map sp).
Proof.
  rewrite !Forall_forall. split; intros F.
  - intros [name m] I. cbn [snd]. apply In_lookup in I.
    destruct (lookup_ordered sp _ I) as [O _].
    destruct (F name O) as (m' & L & D). congruence.
  - intros name O. destruct (@ordered_lookup sp name O) as [m L].
    exists m. split; [exact L|]. apply (F (name, m)). apply lookup_In, L.
Qed.

Lemma auto_declines_iff :
  (exists r, apply_derivative_rule sp expr var "auto" = Ok (Some r) /\
             applied r = false) <->
  Forall (fun entry : string * Matcher => declines (snd entry) expr var)
         (rule_map sp).
Proof.
  split.
  - intros (r & H & A). apply declines_by_name_or_entry.
    pose proof (auto_mode_outcome sp expr var) as O. rewrite H in O.
    destruct O as (pre & post & m & E & L & R & F & [A' | [-> _]]);
      [congruence|].
    rewrite E. apply Forall_app. split; [exact F|].
    constructor; [|constructor]. exists m. split; [exact L|].
    exists r. auto.
  - intros F.
    assert (P : exists f, parsed sp expr var = Ok f).
    { inversion F as [|? ? [r [R _]] _]. subst. cbn [snd] in R.
      apply (well_behaved_result expr var (power_rule_well_behaved sp) R). }
    destruct P as [f P].
    pose proof (@allowed_rule_outcome sp expr var "auto" (or_introl eq_refl))
      as O.
    rewrite P in O. destruct O as [r H]. exists r. split; [exact H|].
    destruct (applied r) eqn:A; [exfalso|reflexivity].
    pose proof (auto_mode_outcome sp expr var) as O. rewrite H in O.
    destruct O as (_ & _ & m & _ & L & R & _).
    rewrite Forall_forall in F.
    destruct (F _ (lookup_In sp _ L)) as (r' & R' & A'). cbn [snd] in R'.
    congruence.
Qed.

Lemma auto_accepts_iff :
  (exists r, apply_derivative_rule sp expr var "auto" = Ok (Some r) /\
             applied r = true) <->
  Exists (fun entry : string * Matcher => accepts (snd entry) expr var)
         (rule_map sp).
Proof.
  rewrite Exists_exists. split.
  - intros (r & H & A).
    pose proof (auto_mode_outcome sp expr var) as O. rewrite H in O.
    destruct O as (_ & _ & m & _ & L & R & _).
    exists (rule_name r, m). split; [apply lookup_In, L|].
    exists r. auto.
  - intros ([name m] & I & r1 & R1 & A1). cbn [snd] in R1.
    apply In_lookup in I.
    destruct (well_behaved_result expr var (lookup_well_behaved _ _ I) R1)
      as (_ & _ & f & P).
    pose proof (@allowed_rule_outcome sp expr var "auto" (or_introl eq_refl))
      as O.
    rewrite P in O. destruct O as [r H]. exists r. split; [exact H|].
    destruct (applied r) eqn:A; [reflexivity|exfalso].
    assert (F : Forall (fun entry : string * Matcher =>
                          declines (snd entry) expr var) (rule_map sp))
      by (apply auto_declines_iff; eauto).
    rewrite Forall_forall in F.
    destruct (F _ (lookup_In sp _ I)) as (r' & R' & A'). cbn [snd] in R'.
    congruence.
Qed.

End AutoMode.

(** X5.  Auto mode misses no rule: it returns an applied result exactly
    when at least one of the five matchers accepts the input, and a result
    that is not applied exactly when all five decline. *)
Theorem auto_applies_iff_some_rule_applies (sp : Engine) (expr : ExprArg)
    (var : VarArg) :
  ((exists r, apply_derivative_rule sp expr var "auto" = Ok (Some r) /\
              applied r = true) <->
   Exists (fun entry : string * Matcher => accepts (snd entry) expr var)
          (rule_map sp)) /\
  ((exists r, apply_derivative_rule sp expr var "auto" = Ok (Some r) /\
              applied r = false) <->
   Forall (fun entry : string * Matcher => declines (snd entry) expr var)
          (rule_map sp)).
Proof.
  split; [apply auto_accepts_iff | apply auto_declines_iff].
Qed.

(** X6.  The name reported by auto mode leads back to the same result:
    dispatching again with [rule_name] of the result as the rule returns
    that result. *)
Theorem auto_result_reproducible_by_name (sp : Engine) (expr : ExprArg)
    (var : VarArg) (r : RuleResult) :
  apply_derivative_rule sp expr var "auto" = Ok (Some r) ->
  apply_derivative_rule sp expr var (rule_name r) = Ok (Some r).
Proof.
  intros H. pose proof (auto_mode_outcome sp expr var) as O. rewrite H in O.
  destruct O as (_ & _ & m & _ & L & R & _).
  rewrite (named_dispatch sp expr var _ L), R. reflexivity.
Qed.

Lemma auto_result_reproducible_by_name_witness :
  let r := mkRuleResult (sin two_x) (Mul [Integer 2; cos two_x]) true
             "chain_rule" "Applied chain rule for sine."
             ["Match pattern sin(g(x))."; "Derivative: cos(g(x))*g'(x)."] in
  apply_derivative_rule Toy.engine (Text "sin(2*x)") (VarStr "x") "auto" =
    Ok (Some r) /\
  apply_derivative_rule Toy.engine (Text "sin(2*x)") (VarStr "x") "chain_rule" =
    Ok (Some r).
Proof.
  intros r.
  assert (E : apply_derivative_rule Toy.engine (Text "sin(2*x)") (VarStr "x")
                "auto" = Ok (Some r)) by (vm_compute; reflexivity).
  split; [exact E|].
  exact (@auto_result_reproducible_by_name Toy.engine _ _ r E).
Defined.

(** X7.  A result of [differentiate_with_rules] is named after one of the
    five rules or symbolic_fallback, and it is the fallback exactly when
    all five matchers decline the input. *)
Theorem fallback_iff_all_rules_decline (sp : Engine) (expr : ExprArg)
    (var : VarArg) (r : RuleResult) :
  differentiate_with_rules sp expr var = Ok r ->
  In (rule_name r) result_names /\
  (rule_name r = "symbolic_fallback" <->
   Forall (fun entry : string * Matcher => declines (snd entry) expr var)
          (rule_map sp)).
Proof.
  intros H. unfold differentiate_with_rules in H.
  destruct (apply_derivative_rule sp expr var "auto") as [[r0|]|] eqn:Auto;
    cbn [bind] in H; try discriminate.
  pose proof (auto_mode_outcome sp expr var) as O. rewrite Auto in O.
  destruct O as (_ & _ & m & _ & L & _).
  destruct (lookup_ordered sp _ L) as [I _].
  destruct (applied r0) eqn:A.
  - injection H as <-. split.
    + apply in_or_app. left. exact I.
    + split.
      * intros N. rewrite N in I. cbn in I.
        repeat (destruct I as [I|I]; [discriminate I|]). contradiction.
      * intros F. apply (auto_declines_iff sp expr var) in F.
        destruct F as (r' & H' & A'). congruence.
  - destruct (parse_expr sp expr (bind_symbol (get_symbol var)));
      cbn [bind] in H; [|discriminate].
    injection H as <-. cbn [rule_name]. split.
    + apply in_or_app. right. cbn. auto.
    + split; [|reflexivity]. intros _.
      apply (auto_declines_iff sp expr var). eauto.
Qed.

Lemma fallback_iff_all_rules_decline_witness :
  differentiate_with_rules Toy.engine (Text "x^x") (VarStr "x") =
    Ok (symbolic_fallback Toy.engine (Pow X X) "x") /\
  Forall (fun entry : string * Matcher =>
            declines (snd entry) (Text "x^x") (VarStr "x"))
         (rule_map Toy.engine).
Proof.
  assert (E : differentiate_with_rules Toy.engine (Text "x^x") (VarStr "x") =
              Ok (symbolic_fallback Toy.engine (Pow X X) "x"))
    by (vm_compute; reflexivity).
  split; [exact E|].
  exact (proj1 (proj2 (@fallback_iff_all_rules_decline Toy.engine _ _ _ E))
           eq_refl).
Defined.

Section SameParse.
Variable sp : Engine.
Variables a b : ExprArg.
Variable var : VarArg.
Hypothesis same : parsed sp a var = parsed sp b var.

Lemma matchers_same_parse :
  Forall (fun entry : string * Matcher => snd entry a var = snd entry b var)
         (rule_map sp).
Proof.
  unfold parsed in same. unfold rule_map.
  repeat constructor; cbn [snd];
    unfold apply_power_rule_derivative, apply_constant_multiple_derivative,
      apply_product_rule, apply_chain_rule, apply_exponential_derivative_rule;
    rewrite same; reflexivity.
Qed.

Lemma lookup_same_parse (name : string) (m : Matcher) :
  lookup name (rule_map sp) = Some m -> m a var = m b var.
Proof.
  intros L. pose proof matchers_same_parse as F. rewrite Forall_forall in F.
  apply (F (name, m)), lookup_In, L.
Qed.

Lemma auto_loop_same_parse (rules : list string) (last : option RuleResult) :
  auto_loop sp rules last a var = auto_loop sp rules last b var.
Proof.
  revert last. induction rules as [|name rules IH]; intros last; cbn.
  - reflexivity.
  - unfold getitem. destruct (lookup name (rule_map sp)) as [m|] eqn:L;
      cbn [bind]; [|reflexivity].
    rewrite (lookup_same_parse _ L).
    destruct (m b var) as [r|]; cbn [bind]; [|reflexivity].
    destruct (applied r); [reflexivity | apply IH].
Qed.

Lemma dispatch_same_parse (rule : string) :
  apply_derivative_rule sp a var rule = apply_derivative_rule sp b var rule.
Proof.
  unfold apply_derivative_rule. destruct (String.eqb rule "auto").
  - apply auto_loop_same_parse.
  - destruct (lookup rule (rule_map sp)) as [m|] eqn:L; [|reflexivity].
    rewrite (lookup_same_parse _ L). reflexivity.
Qed.

Lemma differentiate_same_parse :
  differentiate_with_rules sp a var = differentiate_with_rules sp b var.
Proof.
  unfold differentiate_with_rules. rewrite (dispatch_same_parse "auto").
  unfold parsed in same. rewrite same. reflexivity.
Qed.

End SameParse.

(** X8.  The library looks at its input only through the expression it is
    read as: two inputs with the same reading, such as a text and the tree
    it parses to, get the same outcome from every matcher, from the
    dispatcher under every rule name, from [differentiate_with_rules] and
    from the two evaluation functions. *)
Theorem outcome_depends_on_parse_only (sp : Engine) (a b : ExprArg)
    (var : VarArg) :
  parsed sp a var = parsed sp b var ->
  Forall (fun entry : string * Matcher => snd entry a var = snd entry b var)
         (rule_map sp) /\
  (forall rule,
      apply_derivative_rule sp a var rule = apply_derivative_rule sp b var rule) /\
  differentiate_with_rules sp a var = differentiate_with_rules sp b var /\
  (forall (Value : Type) (subs : Expr -> string -> Value -> Expr) v,
      evaluate_function sp subs a v var = evaluate_function sp subs b v var /\
      evaluate_derivative_at sp subs a v var =
        evaluate_derivative_at sp subs b v var).
Proof.
  intros same. split; [|split; [|split]].
  - apply matchers_same_parse, same.
  - intros rule. apply dispatch_same_parse, same.
  - apply differentiate_same_parse, same.
  - intros Value subs v. split.
    + unfold evaluate_function. unfold parsed in same. rewrite same.
      reflexivity.
    + unfold evaluate_derivative_at.
      rewrite (@differentiate_same_parse sp a b var same). reflexivity.
Qed.

Lemma outcome_depends_on_parse_only_witness :
  parsed Toy.engine (Text "sin(2*x)") (VarStr "x") =
    parsed Toy.engine (Tree (sin two_x)) (VarStr "x") /\
  differentiate_with_rules Toy.engine (Text "sin(2*x)") (VarStr "x") =
    differentiate_with_rules Toy.engine (Tree (sin two_x)) (VarStr "x").
Proof.
  assert (P : parsed Toy.engine (Text "sin(2*x)") (VarStr "x") =
              parsed Toy.engine (Tree (sin two_x)) (VarStr "x"))
    by (vm_compute; reflexivity).
  split; [exact P|].
  exact (proj1 (proj2 (proj2 (@outcome_depends_on_parse_only Toy.engine _ _ _ P)))).
Defined.

(** X11.  The three rules that go by the outer shape of the expression do
    not overlap: on a tree that simplification leaves as it is, at most one
    of product_rule, chain_rule and exponential_rule applies. *)
Theorem shape_rules_exclusive (sp : Engine) (e : Expr) (var : VarArg)
    (rp rc re : RuleResult) :
  simplify sp e = e ->
  apply_product_rule sp (Tree e) var = Ok rp ->
  apply_chain_rule sp (Tree e) var = Ok rc ->
  apply_exponential_derivative_rule sp (Tree e) var = Ok re ->
  (applied rp = true -> applied rc = false /\ applied re = false) /\
  (applied rc = true -> applied re = false).
Proof.
  intros S Hp Hc He.
  unfold apply_product_rule in Hp. unfold apply_chain_rule in Hc.
  unfold apply_exponential_derivative_rule in He.
  cbn [parse_expr bind] in Hp, Hc, He. rewrite S in Hp, Hc.
  generalize dependent (get_symbol var). intros x Hp Hc He.
  destruct e as [ | | | |l|g n|g|g [b|]|g|g| ]; cbn in Hc, He;
    try (injection Hp as <-; injection He as <-; cbn; split;
         [discriminate | reflexivity]).
  - injection Hc as <-. injection He as <-. cbn. auto.
  - injection Hp as <-. cbn. split; [discriminate|].
    destruct (has sp g x) eqn:Hg; cbn in Hc.
    + destruct (expr_eqb n (Symbol x)); injection He as <-; reflexivity.
    + injection Hc as <-. discriminate.
Qed.

Lemma shape_rules_exclusive_witness :
  simplify Toy.engine (Pow (Integer 2) X) = Pow (Integer 2) X /\
  exists rp rc re,
    apply_product_rule Toy.engine (Tree (Pow (Integer 2) X)) (VarStr "x") = Ok rp /\
    apply_chain_rule Toy.engine (Tree (Pow (Integer 2) X)) (VarStr "x") = Ok rc /\
    apply_exponential_derivative_rule Toy.engine (Tree (Pow (Integer 2) X))
      (VarStr "x") = Ok re /\
    applied re = true /\
    (applied rc = true -> applied re = false).
Proof.
  assert (S : simplify Toy.engine (Pow (Integer 2) X) = Pow (Integer 2) X)
    by (vm_compute; reflexivity).
  split; [exact S|].
  do 3 eexists.
  split; [vm_compute; reflexivity|].
  split; [vm_compute; reflexivity|].
  split; [vm_compute; reflexivity|].
  split; [reflexivity|].
  refine (proj2 (@shape_rules_exclusive Toy.engine _ (VarStr "x") _ _ _ S _ _ _));
    vm_compute; reflexivity.
Defined.

Section Shapes.
Variable sp : Engine.
Variable expr : ExprArg.
Variable var : VarArg.

Lemma matchers_well_shaped :
  Forall (fun entry : string * Matcher =>
            forall r, snd entry expr var = Ok r -> well_shaped r)
         (rule_map sp).
Proof.
  unfold rule_map. repeat constructor; cbn [snd].
  - read sp expr var apply_power_rule_derivative.
    destruct (is_polynomial sp (expand sp f) (get_symbol var)); cbn [negb];
      shaped.
  - read sp expr var apply_constant_multiple_derivative.
    destruct (as_independent sp (factor_terms sp f) (get_symbol var)) as [c rest].
    destruct (expr_eqb c (Integer 1)); shaped.
  - read sp expr var apply_product_rule.
    destruct (simplify sp f) eqn:E; try shaped.
    destruct (as_independent sp (Mul args0) (get_symbol var)) as [c rest].
    match goal with |- context [filter ?p ?l] => set (nonconst := filter p l) end.
    destruct (List.length nonconst =? 2)%nat eqn:L; cbn [negb].
    + destruct (filter_length_two _ L) as (u & w & ->). shaped.
    + shaped.
  - read sp expr var apply_chain_rule.
    destruct (simplify sp f) as [ | | | | |g n|g|g [b|]|g|g| ]; cbn;
      try shaped;
      try (destruct (has sp g (get_symbol var)); cbn; try shaped).
    destruct (has sp n (get_symbol var)); cbn; try shaped.
    destruct (expr_eqb n (Integer 1)); cbn; shaped.
  - read sp expr var apply_exponential_derivative_rule.
    destruct f as [ | | | | |u expo| | | | | ]; try shaped.
    destruct (expr_eqb expo (Symbol (get_symbol var))); cbn [negb]; try shaped.
    destruct (has sp u (get_symbol var)); shaped.
Qed.

Lemma lookup_well_shaped (name : string) (m : Matcher) (r : RuleResult) :
  lookup name (rule_map sp) = Some m -> m expr var = Ok r -> well_shaped r.
Proof.
  intros L. pose proof matchers_well_shaped as F. rewrite Forall_forall in F.
  apply (F (name, m)), lookup_In, L.
Qed.

Lemma dispatch_well_shaped (rule : string) (r : RuleResult) :
  apply_derivative_rule sp expr var rule = Ok (Some r) -> well_shaped r.
Proof.
  intros H. destruct (String.eqb_spec rule "auto") as [->|N].
  - pose proof (auto_mode_outcome sp expr var) as O. rewrite H in O.
    destruct O as (_ & _ & m & _ & L & R & _).
    apply (lookup_well_shaped _ L R).
  - unfold apply_derivative_rule in H.
    destruct (String.eqb_spec rule "auto"); [contradiction|].
    destruct (lookup rule (rule_map sp)) as [m|] eqn:L; [|discriminate].
    destruct (m expr var) as [r'|] eqn:R; [|discriminate].
    injection H as ->. apply (lookup_well_shaped _ L R).
Qed.

End Shapes.

(** X12.  Every result of a matcher or of the dispatcher has one of two
    shapes: applied, with a message starting with "Applied " and exactly
    two steps, or not applicable, with a message starting with
    "Not applicable: ", no step and the input as output.  A result of
    [differentiate_with_rules] is applied with two steps, or is the
    fallback with its single step. *)
Theorem results_well_shaped (sp : Engine) (expr : ExprArg) (var : VarArg) :
  Forall (fun entry : string * Matcher =>
            forall r, snd entry expr var = Ok r -> well_shaped r)
         (rule_map sp) /\
  (forall rule r,
      apply_derivative_rule sp expr var rule = Ok (Some r) -> well_shaped r) /\
  (forall r,
      differentiate_with_rules sp expr var = Ok r ->
      (well_shaped r /\ applied r = true /\ List.length (steps r) = 2%nat) \/
      (r = symbolic_fallback sp (input_expr r) (get_symbol var) /\
       List.length (steps r) = 1%nat)).
Proof.
  split; [apply matchers_well_shaped|]. split.
  - intros rule r. apply dispatch_well_shaped.
  - intros r H. unfold differentiate_with_rules in H.
    destruct (apply_derivative_rule sp expr var "auto") as [[r0|]|] eqn:Auto;
      cbn [bind] in H; try discriminate.
    pose proof (@dispatch_well_shaped sp expr var "auto" r0 Auto) as W.
    destruct (applied r0) eqn:A.
    + injection H as <-. left. split; [exact W|]. split; [exact A|].
      unfold well_shaped in W. rewrite A in W. apply W.
    + destruct (parse_expr sp expr (bind_symbol (get_symbol var)));
        cbn [bind] in H; [|discriminate].
      injection H as <-. right. split; reflexivity.
Qed.

(** X13.  [show] of the demo makes, for a result that satisfies the
    invariant (as every result of the library does), six calls of [print]
    for the header, then a call with "Steps:" followed by one call per
    step exactly when the rule applied, and a closing empty call: 8 calls
    plus one per step when applied, 7 otherwise. *)
Theorem show_prints_steps_iff_applied (sp : Engine) (title : string)
    (r : RuleResult) :
  RuleResult_invariant r ->
  List.length (show sp title r) =
    (if applied r then 8 + List.length (steps r) else 7)%nat /\
  (In "Steps:" (skipn 6 (show sp title r)) <-> applied r = true) /\
  skipn 6 (show sp title r) =
    (if applied r
     then List.app ("Steps:" :: map (fun s => "  - " ++ s) (steps r)) [""]
     else [""]).
Proof.
  intros (Ifalse & Itrue & _).
  destruct r as [i o a n msg st]. unfold show. cbn in *.
  destruct a.
  - destruct (Itrue eq_refl) as [Hs _].
    destruct st as [|s st]; [contradiction|]. cbn.
    rewrite length_app, length_map. cbn.
    split; [f_equal; f_equal; f_equal; f_equal; f_equal; f_equal; f_equal;
            rewrite Nat.add_comm; reflexivity|].
    split; [split; auto | reflexivity].
  - destruct (Ifalse eq_refl) as [_ ->]. cbn.
    split; [reflexivity|]. split; [|reflexivity].
    split; [intros [H|[]]; discriminate H | discriminate].
Qed.

Lemma show_prints_steps_iff_applied_witness :
  let r := mkRuleResult (sin two_x) (Mul [Integer 2; cos two_x]) true
             "chain_rule" "Applied chain rule for sine."
             ["Match pattern sin(g(x))."; "Derivative: cos(g(x))*g'(x)."] in
  RuleResult_invariant r /\
  List.length (show Toy.engine "Chain rule" r) = 10%nat /\
  In "Steps:" (skipn 6 (show Toy.engine "Chain rule" r)).
Proof.
  intros r.
  assert (I : RuleResult_invariant r) by invariant.
  split; [exact I|].
  destruct (@show_prints_steps_iff_applied Toy.engine "Chain rule" r I)
    as (L & S & _).
  split; [exact L | exact (proj2 S eq_refl)].
Defined.

Section Priority.
Variable sp : Engine.
Variable expr : ExprArg.
Variable var : VarArg.

(** Rules that decline are passed over by the loop. *)
Lemma auto_loop_passes_declined (pre rest : list string)
    (last : option RuleResult) (name : string) (m : Matcher) (r : RuleResult) :
  Forall (rule_declines sp expr var) pre ->
  lookup name (rule_map sp) = Some m ->
  m expr var = Ok r -> applied r = true ->
  auto_loop sp (pre ++ name :: rest) last expr var = Ok (Some r).
Proof.
  intros F L R A. revert last.
  induction F as [|n pre (m' & L' & r' & R' & A') _ IH]; intros last.
  - cbn. unfold getitem. rewrite L. cbn [bind]. rewrite R. cbn [bind].
    rewrite A. reflexivity.
  - cbn. unfold getitem. rewrite L'. cbn [bind]. rewrite R'. cbn [bind].
    rewrite A'. apply IH.
Qed.

End Priority.

(** X14.  Priority decides between rules that both apply: when a rule
    accepts the input and every rule before it in the order declines,
    auto mode returns the result of that rule, whatever the later rules
    would do.  In particular an input power_rule accepts is always
    answered by power_rule. *)
Theorem first_accepting_rule_wins (sp : Engine) (expr : ExprArg) (var : VarArg)
    (earlier later : list string) (name : string) (m : Matcher)
    (r : RuleResult) :
  ordered_rules = (earlier ++ name :: later)%list ->
  Forall (rule_declines sp expr var) earlier ->
  lookup name (rule_map sp) = Some m ->
  m expr var = Ok r -> applied r = true ->
  apply_derivative_rule sp expr var "auto" = Ok (Some r) /\
  rule_name r = name.
Proof.
  intros E F L R A. split.
  - unfold apply_derivative_rule. cbn [String.eqb Ascii.eqb Bool.eqb].
    rewrite E. apply (@auto_loop_passes_declined sp expr var earlier later None
                        name m r F L R A).
  - apply (well_behaved_result expr var (lookup_well_behaved _ _ L) R).
Qed.

Lemma first_accepting_rule_wins_witness :
  let cube := Pow X (Integer 3) in
  let r := mkRuleResult cube (Mul [Integer 3; Pow X (Integer 2)]) true
             "power_rule" "Applied power rule term-by-term (polynomial)."
             ["Recognize polynomial in x."; "Differentiate each term."] in
  accepts (apply_chain_rule Toy.engine) (Tree cube) (VarStr "x") /\
  apply_power_rule_derivative Toy.engine (Tree cube) (VarStr "x") = Ok r /\
  apply_derivative_rule Toy.engine (Tree cube) (VarStr "x") "auto" =
    Ok (Some r).
Proof.
  intros cube r.
  assert (R : apply_power_rule_derivative Toy.engine (Tree cube) (VarStr "x")
              = Ok r) by (vm_compute; reflexivity).
  split; [|split; [exact R|]].
  - eexists. split; [vm_compute; reflexivity | reflexivity].
  - exact (proj1 (@first_accepting_rule_wins Toy.engine (Tree cube)
                    (VarStr "x") [] _ "power_rule" _ r eq_refl
                    (Forall_nil _) eq_refl R eq_refl)).
Defined.
